(** * The multi-output encoder of the AutoML notebook

    A shallow embedding of the four transformer functions of
    [automl/10.auto-ml-multi-output-example.ipynb]

      - [multi_output_transform_x_y]
      - [multi_output_transformer_x]
      - [multi_output_transform_y]
      - [multi_output_inverse_transform_y]

    together with the part of numpy and scipy they call: arrays of one and
    two dimensions, [np.ones], [np.tile], [np.hstack], [reshape] in Fortran
    order, [linalg.block_diag], and COO sparse matrices with
    [sparse.vstack], [sparse.hstack] and [sparse.coo_matrix].

    Arrays are typed by their dtype.  The feature matrix X has a dtype [A],
    the target Y a dtype [B], and the stacked matrix is float64, [F],
    because it is X joined to an indicator block made with [np.ones]: the
    elements of X are converted on the way. *)

From Stdlib Require Import List Arith PeanoNat Lia ZArith Bool SpecFloat.
Import ListNotations.

Set Implicit Arguments.

(** ** Exceptions

    The functions raise nothing themselves; what can be raised comes from
    numpy and scipy.  [ValueError] is what both raise when shapes do not fit
    (a reshape to a size that does not divide, a concatenation of blocks of
    different heights); [IndexError] is what indexing a shape tuple past
    its end raises. *)

Inductive exn : Type :=
| ValueError
| IndexError.

(** The specification calls the shape mismatch error [ShapeError]. *)
Definition ShapeError : exn := ValueError.

Inductive result (T : Type) : Type :=
| Ok (x : T)
| Raise (e : exn).

Arguments Ok {T} x.
Arguments Raise {T} e.

Definition bind {T U : Type} (r : result T) (f : T -> result U) : result U :=
  match r with
  | Ok x => f x
  | Raise e => Raise e
  end.

Notation "x <- r ;; k" := (bind r (fun x => k))
  (at level 61, r at next level, right associativity).

Definition rmap {T U : Type} (f : T -> U) (r : result T) : result U :=
  match r with
  | Ok x => Ok (f x)
  | Raise e => Raise e
  end.

(** ** Array elements

    An array has one dtype.  [Scalar A] is what the encoder needs of the
    elements of a dtype [A]: the constants 0 and 1 ([np.ones],
    [block_diag]), the test against 0 of [coo_matrix], and, to read a COO
    matrix back as a dense one, the addition that sums the entries stored at
    one position.

    The indicator block is made with [np.ones], so it is float64, and
    joining X to it converts the elements of X to float64 (the common dtype
    of bool, the integers and the floats up to 64 bits with float64):
    [promote] is that conversion, from the dtype [A] of X to the dtype [F]
    of the result. *)

Class Scalar (A : Type) : Type := {
  zero : A;
  one : A;
  is_zero : A -> bool;
  add : A -> A -> A
}.

Class Promote (A F : Type) : Type := {
  promote : A -> F
}.

(** What the proofs use of the arithmetic of the result: 1 is not 0, and
    adding 0 or 1 to 0 gives 0 or 1. *)
Class ScalarLaws {A : Type} (SA : Scalar A) : Prop := {
  is_zero_one : is_zero one = false;
  add_zero_zero : add zero zero = zero;
  add_zero_one : add zero one = one
}.

(** *** float64 numbers with an integer value

    Such a number is written as the integer it is.  [round64] rounds an
    integer to the nearest float64, ties to even, through the binary64
    format of the standard library; the sum of two float64 numbers is the
    rounded exact sum, and the conversion from float64 changes no float64
    number.  An integer that float64 does not have, such as 2^53 + 1, is no
    element of a float64 array; integers beyond the range of float64 are
    not meant. *)

Definition SF2Z (x : spec_float) : Z :=
  match x with
  | S754_finite s m e => cond_Zopp s (Z.shiftl (Zpos m) e)
  | _ => 0%Z
  end.

Definition round64 (z : Z) : Z :=
  SF2Z (binary_normalize 53 1024 z 0 false).

#[export] Instance Z_Scalar : Scalar Z := {|
  zero := 0%Z;
  one := 1%Z;
  is_zero := fun x => Z.eqb x 0;
  add := fun x y => round64 (x + y)
|}.

#[export] Instance Z_Promote : Promote Z Z := {|
  promote := round64
|}.

(** *** int64 numbers

    Addition wraps around; the conversion to float64 rounds. *)

Inductive int64 : Type :=
| I64 (z : Z).

Definition int64_value (x : int64) : Z :=
  match x with
  | I64 z => z
  end.

Definition wrap64 (z : Z) : Z :=
  ((z + 2 ^ 63) mod 2 ^ 64 - 2 ^ 63)%Z.

#[export] Instance int64_Scalar : Scalar int64 := {|
  zero := I64 0;
  one := I64 1;
  is_zero := fun x => Z.eqb (int64_value x) 0;
  add := fun x y => I64 (wrap64 (int64_value x + int64_value y))
|}.

#[export] Instance int64_Promote : Promote int64 Z := {|
  promote := fun x => round64 (int64_value x)
|}.

(** *** float64 numbers as IEEE 754 binary64

    All of them, with the signed zeros, the infinities and NaN, and the
    addition and comparison of the standard. *)

#[export] Instance binary64_Scalar : Scalar spec_float := {|
  zero := S754_zero false;
  one := SFone 53 1024;
  is_zero := fun x => SFeqb x (S754_zero false);
  add := SFadd 53 1024
|}.

#[export] Instance binary64_Promote : Promote spec_float spec_float := {|
  promote := fun x => x
|}.

(** ** Lists of rows and of columns *)

Section Lists.
Context {A : Type}.
Variable d : A.

(** [transpose m xss]: the [m] lists made of the first, second, ...
    elements of the lists of [xss]. *)
Fixpoint transpose (m : nat) (xss : list (list A)) : list (list A) :=
  match m with
  | 0 => []
  | S m' => map (hd d) xss :: transpose m' (map (@tl A) xss)
  end.

(** [chunks n k v]: the first [k] consecutive pieces of length [n] of [v]. *)
Fixpoint chunks (n k : nat) (v : list A) : list (list A) :=
  match k with
  | 0 => []
  | S k' => firstn n v :: chunks n k' (skipn n v)
  end.

(** Row by row concatenation of two lists of rows. *)
Definition zip_app (xs ys : list (list A)) : list (list A) :=
  map (fun p => fst p ++ snd p) (combine xs ys).
End Lists.

(** ** numpy arrays

    An array of one dimension is its list of elements; an array of two
    dimensions is its list of rows with the number of columns, which the
    rows alone do not give when there is none. *)

Inductive ndarray (A : Type) : Type :=
| Arr1 (v : list A)
| Arr2 (ncols : nat) (rows : list (list A)).

Arguments Arr1 {A} v.
Arguments Arr2 {A} ncols rows.

Section NumPy.
Context {A : Type} `{Scalar A}.

(** [a.shape] *)
Definition shape (a : ndarray A) : list nat :=
  match a with
  | Arr1 v => [length v]
  | Arr2 nc rows => [length rows; nc]
  end.

(** [a.shape[i]] *)
Definition shape_at (a : ndarray A) (i : nat) : result nat :=
  match nth_error (shape a) i with
  | Some n => Ok n
  | None => Raise IndexError
  end.

(** Every row of an array of two dimensions has [ncols] elements. *)
Definition wf_ndarray (a : ndarray A) : bool :=
  match a with
  | Arr1 _ => true
  | Arr2 nc rows => forallb (fun r => length r =? nc) rows
  end.

(** [np.ones((n, m))] *)
Definition np_ones (n m : nat) : ndarray A :=
  Arr2 m (repeat (repeat one m) n).

(** The rows and the width of [np.atleast_2d(a)]: a vector is a single
    row. *)
Definition rows_of (a : ndarray A) : list (list A) :=
  match a with
  | Arr1 v => [v]
  | Arr2 _ rows => rows
  end.

Definition ncols_of (a : ndarray A) : nat :=
  match a with
  | Arr1 v => length v
  | Arr2 nc _ => nc
  end.

(** [np.tile(a, (k, 1))]: [a], promoted to two dimensions, [k] times one
    under the other. *)
Definition np_tile (a : ndarray A) (k : nat) : ndarray A :=
  Arr2 (ncols_of a) (concat (repeat (rows_of a) k)).

(** [a[i]] of a vector and [a[i][j]] of a matrix; [None] stands for the
    IndexError of an index out of range. *)
Definition get1 (a : ndarray A) (i : nat) : option A :=
  match a with
  | Arr1 v => nth_error v i
  | Arr2 _ _ => None
  end.

Definition get2 (a : ndarray A) (i j : nat) : option A :=
  match a with
  | Arr1 _ => None
  | Arr2 _ rows =>
      match nth_error rows i with
      | Some r => nth_error r j
      | None => None
      end
  end.

(** [a[i]], a row, of a matrix. *)
Definition get_row (a : ndarray A) (i : nat) : option (list A) :=
  match a with
  | Arr1 _ => None
  | Arr2 _ rows => nth_error rows i
  end.

(** The elements in Fortran order: first index fastest, so column after
    column for a matrix. *)
Definition ravel_F (a : ndarray A) : list A :=
  match a with
  | Arr1 v => v
  | Arr2 nc rows => concat (transpose zero nc rows)
  end.

(** [a.reshape(-1, order="F")] *)
Definition reshape_flat_F (a : ndarray A) : ndarray A :=
  Arr1 (ravel_F a).

(** [a.reshape((-1, k), order="F")]: the number of rows is the size
    divided by [k], which has to be exact; the elements, read in Fortran
    order, fill the result column after column. *)
Definition reshape_cols_F (a : ndarray A) (k : nat) : result (ndarray A) :=
  let v := ravel_F a in
  if k =? 0 then Raise ValueError
  else if length v mod k =? 0
  then let n := length v / k in
       Ok (Arr2 k (transpose zero n (chunks n k v)))
  else Raise ValueError.
End NumPy.

Section Casting.
Context {A F : Type} `{Promote A F}.

(** [a.astype(float64)] *)
Definition np_astype (a : ndarray A) : ndarray F :=
  match a with
  | Arr1 v => Arr1 (map promote v)
  | Arr2 nc rows => Arr2 nc (map (map promote) rows)
  end.

(** [np.hstack((a, b))] for a float64 [b], as the notebook calls it: the
    result is float64, so the elements of [a] are converted and those of
    [b] are kept.  Vectors are joined end to end, matrices side by side,
    which needs as many rows in both. *)
Definition np_hstack (a : ndarray A) (b : ndarray F) : result (ndarray F) :=
  match np_astype a, b with
  | Arr1 v, Arr1 w => Ok (Arr1 (v ++ w))
  | Arr2 nc1 r1, Arr2 nc2 r2 =>
      if length r1 =? length r2
      then Ok (Arr2 (nc1 + nc2) (zip_app r1 r2))
      else Raise ValueError
  | _, _ => Raise ValueError
  end.
End Casting.

(** ** scipy *)

Record spmatrix (A : Type) : Type := {
  sp_nrows : nat;
  sp_ncols : nat;
  sp_entries : list (nat * nat * A)
}.

Section SciPy.
Context {A : Type} `{Scalar A}.

(** [linalg.block_diag] of a list of blocks: the blocks along the diagonal
    of a matrix of zeros, each promoted to two dimensions.  Without any
    block the result has shape (1, 0). *)
Definition block_diag_ncols (arrs : list (ndarray A)) : nat :=
  list_sum (map ncols_of arrs).

Fixpoint block_diag_rows (arrs : list (ndarray A)) : list (list A) :=
  match arrs with
  | [] => []
  | a :: rest =>
      map (fun r => r ++ repeat zero (block_diag_ncols rest)) (rows_of a)
        ++ map (fun r => repeat zero (ncols_of a) ++ r) (block_diag_rows rest)
  end.

Definition block_diag (arrs : list (ndarray A)) : ndarray A :=
  match arrs with
  | [] => Arr2 0 [[]]
  | _ => Arr2 (block_diag_ncols arrs) (block_diag_rows arrs)
  end.

(** A sparse matrix is taken in COO form, the one [sparse.vstack] and
    [sparse.hstack] convert every block to and return: the shape and the
    stored (row, column, value) triples.  scipy refuses a triple outside the
    shape. *)
Definition wf_spmatrix (s : spmatrix A) : bool :=
  forallb (fun e => (fst (fst e) <? sp_nrows s) && (snd (fst e) <? sp_ncols s))
          (sp_entries s).

Definition at_pos (i j : nat) (e : nat * nat * A) : bool :=
  (fst (fst e) =? i) && (snd (fst e) =? j).

(** The values stored at position (i, j), in the order of storage. *)
Definition hits (es : list (nat * nat * A)) (i j : nat) : list A :=
  map snd (filter (at_pos i j) es).

(** [s.toarray()]: a matrix of zeros to which every stored value is
    added at its position. *)
Definition entry_at (es : list (nat * nat * A)) (i j : nat) : A :=
  fold_left add (hits es i j) zero.

Definition toarray (s : spmatrix A) : ndarray A :=
  Arr2 (sp_ncols s)
       (map (fun i => map (fun j => entry_at (sp_entries s) i j)
                          (seq 0 (sp_ncols s)))
            (seq 0 (sp_nrows s))).

(** [sparse.coo_matrix(a)] of a dense [a]: the elements that are not 0,
    row after row, each with its position. *)
Fixpoint row_entries (i j : nat) (r : list A) : list (nat * nat * A) :=
  match r with
  | [] => []
  | x :: r' =>
      (if is_zero x then [] else [(i, j, x)]) ++ row_entries i (S j) r'
  end.

Fixpoint nonzero_entries (i : nat) (rows : list (list A))
  : list (nat * nat * A) :=
  match rows with
  | [] => []
  | r :: rows' => row_entries i 0 r ++ nonzero_entries (S i) rows'
  end.

Definition coo_matrix (a : ndarray A) : spmatrix A :=
  {| sp_nrows := length (rows_of a);
     sp_ncols := ncols_of a;
     sp_entries := nonzero_entries 0 (rows_of a) |}.

Definition shift_row (off : nat) (e : nat * nat * A) : nat * nat * A :=
  (off + fst (fst e), snd (fst e), snd e).

Definition shift_col (off : nat) (e : nat * nat * A) : nat * nat * A :=
  (fst (fst e), off + snd (fst e), snd e).

Fixpoint vstack_entries (off : nat) (blocks : list (spmatrix A))
  : list (nat * nat * A) :=
  match blocks with
  | [] => []
  | b :: bs =>
      map (shift_row off) (sp_entries b)
        ++ vstack_entries (off + sp_nrows b) bs
  end.

(** [sparse.vstack(blocks)]: the blocks one under the other, as a COO
    matrix.  There has to be a block, and all have to be as wide. *)
Definition sparse_vstack (blocks : list (spmatrix A)) : result (spmatrix A) :=
  match blocks with
  | [] => Raise ValueError
  | b :: bs =>
      if forallb (fun b' => sp_ncols b' =? sp_ncols b) bs
      then Ok {| sp_nrows := list_sum (map (@sp_nrows A) blocks);
                 sp_ncols := sp_ncols b;
                 sp_entries := vstack_entries 0 blocks |}
      else Raise ValueError
  end.

(** [np.tile(s, k)] of a sparse matrix: numpy sees one opaque object and
    returns an array of [k] references to it. *)
Definition np_tile_object (s : spmatrix A) (k : nat) : list (spmatrix A) :=
  repeat s k.
End SciPy.

Section SparseCasting.
Context {A F : Type} `{Promote A F}.

(** [s.astype(float64)]: every stored value is converted, duplicates stay
    apart. *)
Definition promote_entry (e : nat * nat * A) : nat * nat * F :=
  (fst (fst e), snd (fst e), promote (snd e)).

Definition sp_astype (s : spmatrix A) : spmatrix F :=
  {| sp_nrows := sp_nrows s;
     sp_ncols := sp_ncols s;
     sp_entries := map promote_entry (sp_entries s) |}.

(** [sparse.hstack((a, b))] for a float64 [b], as the notebook calls it:
    side by side, as a float64 COO matrix, the stored values of [a]
    converted; both have to be as high. *)
Definition sparse_hstack (a : spmatrix A) (b : spmatrix F)
  : result (spmatrix F) :=
  if sp_nrows a =? sp_nrows b
  then Ok {| sp_nrows := sp_nrows a;
             sp_ncols := sp_ncols a + sp_ncols b;
             sp_entries := sp_entries (sp_astype a)
                             ++ map (shift_col (sp_ncols a)) (sp_entries b) |}
  else Raise ValueError.
End SparseCasting.

(** ** The transformer functions of the notebook *)

(** What the notebook passes as [X]: a numpy array or a scipy sparse
    matrix. *)
Inductive matrix (A : Type) : Type :=
| Dense (a : ndarray A)
| Sparse (s : spmatrix A).

Arguments Dense {A} a.
Arguments Sparse {A} s.

Section Matrices.
Context {A : Type}.

(** [sparse.issparse(X)] *)
Definition issparse (X : matrix A) : bool :=
  match X with
  | Sparse _ => true
  | Dense _ => false
  end.

(** [X.shape[0]] *)
Definition shape0 (X : matrix A) : nat :=
  match X with
  | Dense a => hd 0 (shape a)
  | Sparse s => sp_nrows s
  end.

(** The shape of a matrix of two dimensions. *)
Definition mshape (X : matrix A) : option (nat * nat) :=
  match X with
  | Dense (Arr1 _) => None
  | Dense (Arr2 nc rows) => Some (length rows, nc)
  | Sparse s => Some (sp_nrows s, sp_ncols s)
  end.

Definition wf_matrix (X : matrix A) : bool :=
  match X with
  | Dense a => wf_ndarray a
  | Sparse s => wf_spmatrix s
  end.

(** The dense equivalent of a matrix, in its own dtype. *)
Definition densify `{Scalar A} (X : matrix A) : ndarray A :=
  match X with
  | Dense a => a
  | Sparse s => toarray s
  end.
End Matrices.

Section Notebook.
Context {A B F : Type} {SB : Scalar B} {SF : Scalar F} {PA : Promote A F}.

(** [X.astype(float64)] *)
Definition astype_float64 (X : matrix A) : matrix F :=
  match X with
  | Dense a => Dense (np_astype a)
  | Sparse s => Sparse (sp_astype s)
  end.

(** [multi_output_transformer_x(X, number_of_columns_y)].  The indicator
    block is [block_diag] of [number_of_columns_y] copies of
    [np.ones((X.shape[0], 1))], a float64 matrix.  A sparse [X] is tiled as
    an object, stacked with [sparse.vstack] and joined to the indicator
    block, turned into a COO matrix, with [sparse.hstack]; a dense [X] is
    tiled with [np.tile(X, (number_of_columns_y, 1))] and joined with
    [np.hstack].  [X] has the dtype [A], the result is float64, [F].
    [number_of_columns_y] is an entry of a shape at every call of the
    notebook, hence a natural number. *)
Definition multi_output_transformer_x (X : matrix A) (number_of_columns_y : nat)
  : result (matrix F) :=
  let indicator_vecs : ndarray F :=
    block_diag (repeat (np_ones (shape0 X) 1) number_of_columns_y) in
  match X with
  | Sparse s =>
      X_new <- sparse_vstack (np_tile_object s number_of_columns_y) ;;
      let indicator_vecs := coo_matrix indicator_vecs in
      X_new <- sparse_hstack X_new indicator_vecs ;;
      Ok (Sparse X_new)
  | Dense a =>
      let X_new := np_tile a number_of_columns_y in
      X_new <- np_hstack X_new indicator_vecs ;;
      Ok (Dense X_new)
  end.

(** [multi_output_transform_y(y)] is [y.reshape(-1, order="F")]; [y] keeps
    its dtype [B]. *)
Definition multi_output_transform_y (y : ndarray B) : ndarray B :=
  reshape_flat_F y.

(** [multi_output_inverse_transform_y(y, number_of_columns_y)] is
    [y.reshape((-1, number_of_columns_y), order="F")]. *)
Definition multi_output_inverse_transform_y (y : ndarray B)
           (number_of_columns_y : nat) : result (ndarray B) :=
  reshape_cols_F y number_of_columns_y.

(** [multi_output_transform_x_y(X, y)]: [y.shape[1]] is read first, then
    [X] is transformed, then [y]. *)
Definition multi_output_transform_x_y (X : matrix A) (y : ndarray B)
  : result (matrix F * ndarray B) :=
  k <- shape_at y 1 ;;
  X_new <- multi_output_transformer_x X k ;;
  let y_new := multi_output_transform_y y in
  Ok (X_new, y_new).

(** The one-hot vector [e_j] of length [k]. *)
Definition one_hot (j k : nat) : list F :=
  map (fun c => if c =? j then one else zero) (seq 0 k).

(** The indicator block for [n] samples and [k] outputs, and the stacked
    matrix of the data model: for every output [j] in turn, the rows
    followed by [e_j]. *)
Definition indicator_rows (n k : nat) : list (list F) :=
  concat (map (fun j => repeat (one_hot j k) n) (seq 0 k)).

Definition stacked_rows (rows : list (list F)) (k : nat) : list (list F) :=
  concat (map (fun j => map (fun r => r ++ one_hot j k) rows) (seq 0 k)).
End Notebook.

(** ** The prediction cell of the notebook

    [X_test_transformed = multi_output_transformer_x(X_test, y_train.shape[1])],
    [y_predict = fitted_model.predict(X_test_transformed)] and
    [y_predict = multi_output_inverse_transform_y(y_predict, y_train.shape[1])].
    The fitted model comes from the training service; its [predict] is a
    parameter here. *)

Section Prediction.
Context {A B F : Type} {SB : Scalar B} {SF : Scalar F} {PA : Promote A F}.
Variable predict : matrix F -> ndarray B.

Definition predict_multi_output (X_test : matrix A) (y_train : ndarray B)
  : result (ndarray B) :=
  k <- shape_at y_train 1 ;;
  X_test_transformed <- multi_output_transformer_x X_test k ;;
  let y_predict := predict X_test_transformed in
  k' <- shape_at y_train 1 ;;
  multi_output_inverse_transform_y y_predict k'.
End Prediction.

(** ** Concrete inputs

    On float64 numbers with integer values: the example of the
    specification, X = [[1],[2]] with Y = [[10,100],[20,200]]; the same X
    stored sparsely; an X of three rows; flat vectors of length 4 and 5. *)
Definition rows_X_ex : list (list Z) := [[1]; [2]]%Z.
Definition rows_Y_ex : list (list Z) := [[10; 100]; [20; 200]]%Z.
Definition X_ex : matrix Z := Dense (Arr2 1 rows_X_ex).
Definition Y_ex : ndarray Z := Arr2 2 rows_Y_ex.
Definition S_ex : spmatrix Z :=
  {| sp_nrows := 2; sp_ncols := 1; sp_entries := [(1, 0, 2%Z); (0, 0, 1%Z)] |}.
Definition X_3rows : matrix Z := Dense (Arr2 1 [[1]; [2]; [3]]%Z).
Definition y_flat4 : list Z := [10; 20; 100; 200]%Z.
Definition y_flat5 : list Z := [1; 2; 3; 4; 5]%Z.

(** An int64 X with the entry 2^53 + 1, which float64 does not have; an
    int64 COO matrix that stores 2^53 + 1 and 1 at one position; a target
    of one column. *)
Definition X_big : matrix int64 :=
  Dense (Arr2 1 [[I64 9007199254740993]]).


(** An X with two equal rows, and what the transformer makes of it for two
    outputs. *)
Definition X_twin : matrix Z := Dense (Arr2 1 [[1]; [1]]%Z).
Definition X_twin_stacked : matrix Z :=
  Dense (Arr2 3 [[1; 1; 0]; [1; 1; 0]; [1; 0; 1]; [1; 0; 1]]%Z).

(** A stand-in for a fitted model: the prediction for a row is the sum of
    its entries. *)
Definition predict_ex (X : matrix Z) : ndarray Z :=
  Arr1 (map (fun r => fold_right Z.add 0%Z r) (rows_of (densify X))).

(** * Proofs *)

(** ** Lists *)

Section ListFacts.
Context {A : Type}.
Variable d : A.

Lemma forallb_length (n : nat) (xss : list (list A)) :
  forallb (fun r => length r =? n) xss = true <->
  Forall (fun r => length r = n) xss.
Proof.
  rewrite forallb_forall, Forall_forall.
  split; intros Hall r Hr; apply Nat.eqb_eq; auto.
Qed.

Lemma map_nth_seq (l : list A) :
  map (fun i => nth i l d) (seq 0 (length l)) = l.
Proof.
  induction l as [|x l IH]; [reflexivity|].
  cbn [length seq map nth]. f_equal.
  rewrite <- seq_shift, map_map. exact IH.
Qed.

Lemma transpose_map_seq (m : nat) (xss : list (list A)) :
  transpose d m xss = map (fun j => map (fun r => nth j r d) xss) (seq 0 m).
Proof.
  revert xss. induction m as [|m IH]; intros xss; [reflexivity|].
  cbn [transpose seq map]. f_equal.
  - apply map_ext. now intros [|x r].
  - rewrite IH, <- seq_shift, map_map. apply map_ext. intros j.
    rewrite map_map. apply map_ext. intros [|x r]; [now destruct j|reflexivity].
Qed.

Lemma length_transpose (m : nat) (xss : list (list A)) :
  length (transpose d m xss) = m.
Proof. now rewrite transpose_map_seq, length_map, length_seq. Qed.

Lemma Forall_length_transpose (m : nat) (xss : list (list A)) :
  Forall (fun c => length c = length xss) (transpose d m xss).
Proof.
  rewrite transpose_map_seq. apply Forall_forall. intros c Hc.
  apply in_map_iff in Hc. destruct Hc as [j [<- _]]. apply length_map.
Qed.

Lemma nth_error_transpose (m j : nat) (xss : list (list A)) :
  j < m ->
  nth_error (transpose d m xss) j = Some (map (fun r => nth j r d) xss).
Proof.
  intros Hj. rewrite transpose_map_seq.
  rewrite nth_error_map, nth_error_nth' with (d := 0) by now rewrite length_seq.
  now rewrite seq_nth.
Qed.

Lemma length_concat_uniform (n : nat) (cs : list (list A)) :
  Forall (fun c => length c = n) cs ->
  length (concat cs) = length cs * n.
Proof.
  induction 1 as [|c cs Hc _ IH]; [reflexivity|].
  cbn. rewrite length_app, IH, Hc. reflexivity.
Qed.

Lemma nth_error_concat_uniform (n : nat) (cs : list (list A)) (j i : nat) :
  Forall (fun c => length c = n) cs ->
  i < n ->
  nth_error (concat cs) (j * n + i) =
  match nth_error cs j with
  | Some c => nth_error c i
  | None => None
  end.
Proof.
  intros Hcs Hi. revert j. induction Hcs as [|c cs Hc _ IH]; intros j.
  - cbn. now destruct j; destruct (_ + i).
  - destruct j as [|j]; cbn [concat nth_error].
    + rewrite nth_error_app1 by (cbn; lia). reflexivity.
    + rewrite nth_error_app2 by (cbn; lia).
      replace (S j * n + i - length c) with (j * n + i) by (cbn; lia).
      apply IH.
Qed.

Lemma chunks_concat (n : nat) (cs : list (list A)) :
  Forall (fun c => length c = n) cs ->
  chunks n (length cs) (concat cs) = cs.
Proof.
  induction 1 as [|c cs Hc _ IH]; [reflexivity|].
  cbn [length chunks concat]. f_equal.
  - rewrite firstn_app, Hc, Nat.sub_diag, firstn_all2 by lia.
    cbn. apply app_nil_r.
  - rewrite skipn_app, Hc, Nat.sub_diag, skipn_all2 by lia.
    cbn. exact IH.
Qed.

Lemma nth_error_chunks (n k j : nat) (v : list A) :
  j < k ->
  nth_error (chunks n k v) j = Some (firstn n (skipn (j * n) v)).
Proof.
  revert j v. induction k as [|k IH]; intros j v Hj; [lia|].
  destruct j as [|j]; cbn [chunks nth_error].
  - reflexivity.
  - rewrite IH by lia. rewrite skipn_skipn.
    now replace (j * n + n) with (S j * n) by (cbn; lia).
Qed.

Lemma length_chunks (n k : nat) (v : list A) : length (chunks n k v) = k.
Proof. revert v. induction k as [|k IH]; intros v; cbn; auto. Qed.

Lemma zip_app_app (xs xs' ys ys' : list (list A)) :
  length xs = length ys ->
  zip_app (xs ++ xs') (ys ++ ys') = zip_app xs ys ++ zip_app xs' ys'.
Proof.
  unfold zip_app. revert ys. induction xs as [|x xs IH]; intros [|y ys] Hlen;
    try discriminate; [reflexivity|].
  cbn. f_equal. apply IH. now injection Hlen.
Qed.

Lemma zip_app_repeat (xs : list (list A)) (o : list A) :
  zip_app xs (repeat o (length xs)) = map (fun r => r ++ o) xs.
Proof.
  unfold zip_app. induction xs as [|x xs IH]; [reflexivity|].
  cbn. now rewrite IH.
Qed.

Lemma zip_app_map {I : Type} (f g : I -> list A) (l : list I) :
  zip_app (map f l) (map g l) = map (fun i => f i ++ g i) l.
Proof.
  unfold zip_app. induction l as [|i l IH]; [reflexivity|].
  cbn. now rewrite IH.
Qed.

Lemma map_add_seq (n s m : nat) :
  map (fun i => n + i) (seq s m) = seq (n + s) m.
Proof.
  revert s. induction m as [|m IH]; intros s; [reflexivity|].
  cbn. rewrite IH. now rewrite Nat.add_succ_r.
Qed.

Lemma map_seq_blocks {B : Type} (n k : nat) (F G : nat -> B) :
  (forall q i, q < k -> i < n -> F (q * n + i) = G i) ->
  map F (seq 0 (k * n)) = concat (repeat (map G (seq 0 n)) k).
Proof.
  revert F. induction k as [|k IH]; intros F HF; [reflexivity|].
  cbn [Nat.mul repeat concat]. rewrite seq_app, map_app. f_equal.
  - apply map_ext_in. intros i Hi. apply in_seq in Hi.
    apply (HF 0 i); lia.
  - cbn [Nat.add].
    replace (seq n (k * n)) with (map (fun i => n + i) (seq 0 (k * n))).
    + rewrite map_map. apply IH. intros q i Hq Hi.
      rewrite <- (HF (S q) i) by lia. f_equal. cbn. lia.
    + rewrite map_add_seq. now rewrite Nat.add_0_r.
Qed.
End ListFacts.

(** ** The indicator block and the stacked matrix *)

Section DenseFacts.
Context {A : Type} `{Scalar A}.

Lemma length_one_hot (j k : nat) : length (one_hot j k : list A) = k.
Proof. unfold one_hot. now rewrite length_map, length_seq. Qed.

Lemma one_hot_0 (k : nat) : one_hot 0 (S k) = (one :: repeat zero k : list A).
Proof.
  unfold one_hot. cbn [seq map Nat.eqb]. f_equal.
  rewrite <- seq_shift, map_map. cbn [Nat.eqb].
  now rewrite map_const, length_seq.
Qed.

Lemma one_hot_S (j k : nat) :
  one_hot (S j) (S k) = (zero :: one_hot j k : list A).
Proof.
  unfold one_hot. cbn [seq map Nat.eqb]. f_equal.
  rewrite <- seq_shift, map_map. reflexivity.
Qed.

Lemma block_diag_ncols_ones (n k : nat) :
  block_diag_ncols (repeat (np_ones n 1) k) = k.
Proof.
  unfold block_diag_ncols. induction k as [|k IH]; [reflexivity|].
  cbn in *. now f_equal.
Qed.

Lemma block_diag_rows_ones (n k : nat) :
  block_diag_rows (repeat (np_ones n 1) k) = indicator_rows n k.
Proof.
  unfold indicator_rows. induction k as [|k IH]; [reflexivity|].
  cbn [repeat block_diag_rows seq map concat]. f_equal.
  - rewrite block_diag_ncols_ones. cbn [np_ones rows_of repeat].
    rewrite map_repeat, one_hot_0. reflexivity.
  - rewrite IH, concat_map, map_map, <- seq_shift, map_map.
    f_equal. apply map_ext. intros j.
    rewrite map_repeat, one_hot_S. reflexivity.
Qed.

Lemma length_indicator_rows (n k : nat) :
  length (indicator_rows n k : list (list A)) = k * n.
Proof.
  unfold indicator_rows.
  rewrite length_concat_uniform with (n := n).
  - now rewrite length_map, length_seq.
  - apply Forall_forall. intros c Hc. apply in_map_iff in Hc.
    destruct Hc as [j [<- _]]. apply repeat_length.
Qed.

Lemma length_concat_repeat {B : Type} (l : list B) (k : nat) :
  length (concat (repeat l k)) = k * length l.
Proof.
  rewrite length_concat_uniform with (n := length l).
  - now rewrite repeat_length.
  - apply Forall_forall. intros c Hc. now apply repeat_spec in Hc; subst.
Qed.

Lemma zip_app_blocks (rows : list (list A)) (e : nat -> list A) (js : list nat) :
  zip_app (concat (repeat rows (length js)))
          (concat (map (fun j => repeat (e j) (length rows)) js))
  = concat (map (fun j => map (fun r => r ++ e j) rows) js).
Proof.
  induction js as [|j js IH]; [reflexivity|].
  cbn [length repeat map concat].
  rewrite zip_app_app by now rewrite repeat_length.
  rewrite zip_app_repeat, IH. reflexivity.
Qed.

Lemma zip_app_indicator (rows : list (list A)) (k : nat) :
  zip_app (concat (repeat rows k)) (indicator_rows (length rows) k)
  = stacked_rows rows k.
Proof.
  pose proof (zip_app_blocks rows (fun j => one_hot j k) (seq 0 k)) as E.
  rewrite length_seq in E. exact E.
Qed.

Lemma length_stacked_rows (rows : list (list A)) (k : nat) :
  length (stacked_rows rows k) = k * length rows.
Proof.
  unfold stacked_rows.
  rewrite length_concat_uniform with (n := length rows).
  - now rewrite length_map, length_seq.
  - apply Forall_forall. intros c Hc. apply in_map_iff in Hc.
    destruct Hc as [j [<- _]]. apply length_map.
Qed.

Lemma Forall_length_stacked_rows (f k : nat) (rows : list (list A)) :
  Forall (fun r => length r = f) rows ->
  Forall (fun r => length r = f + k) (stacked_rows rows k).
Proof.
  intros Hrows. unfold stacked_rows. apply Forall_concat.
  apply Forall_forall. intros c Hc. apply in_map_iff in Hc.
  destruct Hc as [j [<- _]]. apply Forall_map.
  eapply Forall_impl; [|exact Hrows]. cbn. intros r Hr.
  now rewrite length_app, length_one_hot, Hr.
Qed.

Lemma nth_error_stacked_rows (rows : list (list A)) (k j i : nat) (r : list A) :
  j < k ->
  nth_error rows i = Some r ->
  nth_error (stacked_rows rows k) (j * length rows + i)
  = Some (r ++ one_hot j k).
Proof.
  intros Hj Hr. unfold stacked_rows.
  assert (Hi : i < length rows) by (apply nth_error_Some; congruence).
  rewrite nth_error_concat_uniform; [|
    apply Forall_forall; intros c Hc; apply in_map_iff in Hc;
    destruct Hc as [j' [<- _]]; apply length_map | exact Hi].
  rewrite nth_error_map, nth_error_nth' with (d := 0) by now rewrite length_seq.
  rewrite seq_nth by assumption. cbn.
  now rewrite nth_error_map, Hr.
Qed.

End DenseFacts.

Section DenseBranch.
Context {A F : Type} {SF : Scalar F} {PA : Promote A F}.

Lemma transformer_x_zero (X : matrix A) :
  multi_output_transformer_x X 0 = Raise ValueError.
Proof. destruct X as [[v|nc rows]|s]; reflexivity. Qed.

Lemma transformer_x_dense (a : ndarray A) (k : nat) :
  1 <= k ->
  length (rows_of a) = hd 0 (shape a) ->
  multi_output_transformer_x (Dense a) k
  = Ok (Dense (Arr2 (ncols_of a + k)
                    (stacked_rows (map (map promote) (rows_of a)) k))).
Proof.
  intros Hk Hrows. unfold multi_output_transformer_x, shape0.
  destruct k as [|k]; [lia|]. rewrite <- Hrows.
  unfold block_diag. cbn [repeat]. change (?x :: repeat ?x k) with (repeat x (S k)).
  rewrite block_diag_ncols_ones, block_diag_rows_ones.
  unfold np_tile, np_hstack, np_astype, bind.
  rewrite length_map, length_concat_repeat, length_indicator_rows, Nat.eqb_refl.
  rewrite concat_map, map_repeat.
  rewrite <- (length_map (map promote) (rows_of a)).
  now rewrite zip_app_indicator.
Qed.
End DenseBranch.

(** ** COO matrices read back as dense ones *)

Section SparseFacts.
Context {A : Type} `{Scalar A}.

Lemma hits_cons (e : nat * nat * A) (es : list (nat * nat * A)) (i j : nat) :
  hits (e :: es) i j
  = if at_pos i j e then snd e :: hits es i j else hits es i j.
Proof. unfold hits. cbn [filter]. now destruct (at_pos i j e). Qed.

Lemma hits_app (es1 es2 : list (nat * nat * A)) (i j : nat) :
  hits (es1 ++ es2) i j = hits es1 i j ++ hits es2 i j.
Proof. unfold hits. now rewrite filter_app, map_app. Qed.

Lemma hits_none (es : list (nat * nat * A)) (i j : nat) :
  (forall e, In e es -> at_pos i j e = false) ->
  hits es i j = [].
Proof.
  induction es as [|e es IH]; intros Hes; [reflexivity|].
  rewrite hits_cons, Hes by now left.
  apply IH. intros e' He'. apply Hes. now right.
Qed.

Lemma hits_shift_row (off : nat) (es : list (nat * nat * A)) (i j : nat) :
  hits (map (shift_row off) es) (off + i) j = hits es i j.
Proof.
  induction es as [|[[r c] x] es IH]; [reflexivity|].
  cbn [map]. rewrite !hits_cons, IH. unfold at_pos, shift_row. cbn [fst snd].
  replace (off + r =? off + i) with (r =? i); [reflexivity|].
  destruct (Nat.eqb_spec r i), (Nat.eqb_spec (off + r) (off + i)); auto; lia.
Qed.

Lemma hits_shift_row_below (off : nat) (es : list (nat * nat * A)) (i j : nat) :
  i < off -> hits (map (shift_row off) es) i j = [].
Proof.
  intros Hi. apply hits_none. intros e He. apply in_map_iff in He.
  destruct He as [[[r c] x] [<- _]]. unfold at_pos, shift_row. cbn [fst snd].
  destruct (Nat.eqb_spec (off + r) i); [lia|reflexivity].
Qed.

Lemma hits_shift_col (off : nat) (es : list (nat * nat * A)) (i j : nat) :
  hits (map (shift_col off) es) i (off + j) = hits es i j.
Proof.
  induction es as [|[[r c] x] es IH]; [reflexivity|].
  cbn [map]. rewrite !hits_cons, IH. unfold at_pos, shift_col. cbn [fst snd].
  replace (off + c =? off + j) with (c =? j); [reflexivity|].
  destruct (Nat.eqb_spec c j), (Nat.eqb_spec (off + c) (off + j)); auto; lia.
Qed.

Lemma hits_shift_col_below (off : nat) (es : list (nat * nat * A)) (i j : nat) :
  j < off -> hits (map (shift_col off) es) i j = [].
Proof.
  intros Hj. apply hits_none. intros e He. apply in_map_iff in He.
  destruct He as [[[r c] x] [<- _]]. unfold at_pos, shift_col. cbn [fst snd].
  destruct (Nat.eqb_spec (off + c) j); [lia|apply andb_false_r].
Qed.

Lemma wf_spmatrix_In (s : spmatrix A) (e : nat * nat * A) :
  wf_spmatrix s = true -> In e (sp_entries s) ->
  fst (fst e) < sp_nrows s /\ snd (fst e) < sp_ncols s.
Proof.
  unfold wf_spmatrix. rewrite forallb_forall. intros Hwf He.
  apply Hwf in He. apply andb_prop in He. destruct He as [Hr Hc].
  split; now apply Nat.ltb_lt.
Qed.

Lemma hits_outside_rows (s : spmatrix A) (i j : nat) :
  wf_spmatrix s = true -> sp_nrows s <= i -> hits (sp_entries s) i j = [].
Proof.
  intros Hwf Hi. apply hits_none. intros e He.
  destruct (wf_spmatrix_In s e Hwf He) as [Hr _]. unfold at_pos.
  destruct (Nat.eqb_spec (fst (fst e)) i); [lia|reflexivity].
Qed.

Lemma hits_outside_cols (s : spmatrix A) (i j : nat) :
  wf_spmatrix s = true -> sp_ncols s <= j -> hits (sp_entries s) i j = [].
Proof.
  intros Hwf Hj. apply hits_none. intros e He.
  destruct (wf_spmatrix_In s e Hwf He) as [_ Hc]. unfold at_pos.
  destruct (Nat.eqb_spec (snd (fst e)) j); [lia|apply andb_false_r].
Qed.

(** *** [sparse.vstack] of copies of one matrix *)

Lemma vstack_entries_below (blocks : list (spmatrix A)) (off i j : nat) :
  i < off -> hits (vstack_entries off blocks) i j = [].
Proof.
  revert off. induction blocks as [|b bs IH]; intros off Hi; [reflexivity|].
  cbn [vstack_entries]. rewrite hits_app, hits_shift_row_below by assumption.
  apply IH. lia.
Qed.

Lemma hits_vstack_repeat (s : spmatrix A) (k off q i j : nat) :
  wf_spmatrix s = true ->
  q < k -> i < sp_nrows s ->
  hits (vstack_entries off (repeat s k)) (off + (q * sp_nrows s + i)) j
  = hits (sp_entries s) i j.
Proof.
  intros Hwf. revert off q. induction k as [|k IH]; intros off q Hq Hi; [lia|].
  cbn [repeat vstack_entries]. rewrite hits_app.
  destruct q as [|q].
  - cbn [Nat.mul Nat.add]. rewrite hits_shift_row.
    rewrite vstack_entries_below by lia. apply app_nil_r.
  - rewrite hits_shift_row, hits_outside_rows by (assumption || cbn; lia).
    cbn [app].
    replace (off + (S q * sp_nrows s + i))
      with (off + sp_nrows s + (q * sp_nrows s + i)) by (cbn; lia).
    apply IH; lia.
Qed.

Lemma list_sum_repeat_nrows (s : spmatrix A) (k : nat) :
  list_sum (map (@sp_nrows A) (repeat s k)) = k * sp_nrows s.
Proof.
  induction k as [|k IH]; [reflexivity|].
  cbn [repeat map Nat.mul]. rewrite <- IH. reflexivity.
Qed.

Lemma sparse_vstack_repeat (s : spmatrix A) (k : nat) :
  1 <= k ->
  sparse_vstack (repeat s k)
  = Ok {| sp_nrows := k * sp_nrows s;
          sp_ncols := sp_ncols s;
          sp_entries := vstack_entries 0 (repeat s k) |}.
Proof.
  intros Hk. destruct k as [|k]; [lia|].
  unfold sparse_vstack. cbn [repeat].
  change (s :: repeat s k) with (repeat s (S k)).
  rewrite list_sum_repeat_nrows.
  replace (forallb _ (repeat s k)) with true; [reflexivity|].
  symmetry. apply forallb_forall. intros b Hb.
  apply repeat_spec in Hb. subst b. apply Nat.eqb_refl.
Qed.

Lemma vstack_entries_repeat_In (s : spmatrix A) (k off : nat) (e : nat * nat * A) :
  wf_spmatrix s = true ->
  In e (vstack_entries off (repeat s k)) ->
  fst (fst e) < off + k * sp_nrows s /\ snd (fst e) < sp_ncols s.
Proof.
  intros Hwf. revert off. induction k as [|k IH]; intros off He; [contradiction|].
  cbn [repeat vstack_entries] in He. apply in_app_or in He.
  destruct He as [He|He].
  - apply in_map_iff in He. destruct He as [e' [<- He']].
    destruct (wf_spmatrix_In s e' Hwf He') as [Hr Hc].
    unfold shift_row. cbn [fst snd]. split; [cbn; lia|exact Hc].
  - apply IH in He. split; [cbn; lia|tauto].
Qed.

Lemma wf_vstack_repeat (s : spmatrix A) (k : nat) :
  wf_spmatrix s = true ->
  wf_spmatrix {| sp_nrows := k * sp_nrows s;
                 sp_ncols := sp_ncols s;
                 sp_entries := vstack_entries 0 (repeat s k) |} = true.
Proof.
  intros Hwf. unfold wf_spmatrix. cbn [sp_nrows sp_ncols sp_entries].
  apply forallb_forall. intros e He.
  destruct (vstack_entries_repeat_In s k 0 e Hwf He) as [Hr Hc].
  apply andb_true_intro. split; now apply Nat.ltb_lt.
Qed.

Lemma toarray_vstack_repeat (s : spmatrix A) (k : nat) :
  wf_spmatrix s = true ->
  toarray {| sp_nrows := k * sp_nrows s;
             sp_ncols := sp_ncols s;
             sp_entries := vstack_entries 0 (repeat s k) |}
  = Arr2 (sp_ncols s) (concat (repeat (rows_of (toarray s)) k)).
Proof.
  intros Hwf. unfold toarray. cbn [sp_nrows sp_ncols sp_entries rows_of].
  f_equal. apply map_seq_blocks. intros q i Hq Hi.
  apply map_ext. intros j. unfold entry_at.
  now rewrite <- (hits_vstack_repeat s 0 j Hwf Hq Hi).
Qed.

Lemma toarray_shape (s : spmatrix A) :
  length (rows_of (toarray s)) = sp_nrows s
  /\ Forall (fun r => length r = sp_ncols s) (rows_of (toarray s)).
Proof.
  unfold toarray. cbn [rows_of]. split.
  - now rewrite length_map, length_seq.
  - apply Forall_forall. intros r Hr. apply in_map_iff in Hr.
    destruct Hr as [i [<- _]]. now rewrite length_map, length_seq.
Qed.

End SparseFacts.

(** ** The conversion in [sparse.hstack] *)

Section SparseCastFacts.
Context {A F : Type} {SF : Scalar F} {PA : Promote A F}.

Lemma In_promote_entry (es : list (nat * nat * A)) (e : nat * nat * F) :
  In e (map promote_entry es) ->
  exists e', In e' es /\ fst e = fst e'.
Proof.
  intros He. apply in_map_iff in He. destruct He as [e' [<- He']].
  exists e'. split; [exact He'|]. now destruct e' as [[r c] x].
Qed.

Lemma wf_sp_astype (s : spmatrix A) :
  wf_spmatrix (sp_astype s) = wf_spmatrix s.
Proof.
  unfold wf_spmatrix, sp_astype. cbn [sp_nrows sp_ncols sp_entries].
  induction (sp_entries s) as [|e es IH]; [reflexivity|].
  cbn [map forallb]. rewrite IH. now destruct e as [[r c] x].
Qed.

Lemma promote_vstack_entries (blocks : list (spmatrix A)) (off : nat) :
  map promote_entry (vstack_entries off blocks)
  = vstack_entries off (map sp_astype blocks).
Proof.
  revert off. induction blocks as [|b bs IH]; intros off; [reflexivity|].
  cbn [vstack_entries map]. rewrite map_app, IH. f_equal.
  cbn [sp_astype sp_entries]. rewrite !map_map. now apply map_ext.
Qed.

Lemma sp_astype_vstack_repeat (s : spmatrix A) (k : nat) :
  sp_astype {| sp_nrows := k * sp_nrows s;
               sp_ncols := sp_ncols s;
               sp_entries := vstack_entries 0 (repeat s k) |}
  = {| sp_nrows := k * sp_nrows (sp_astype s);
       sp_ncols := sp_ncols (sp_astype s);
       sp_entries := vstack_entries 0 (repeat (sp_astype s) k) |}.
Proof.
  unfold sp_astype at 1. cbn [sp_nrows sp_ncols sp_entries].
  now rewrite promote_vstack_entries, map_repeat.
Qed.

Lemma toarray_hstack (a : spmatrix A) (b s : spmatrix F) :
  wf_spmatrix a = true ->
  sparse_hstack a b = Ok s ->
  toarray s
  = Arr2 (sp_ncols a + sp_ncols b)
         (zip_app (rows_of (toarray (sp_astype a))) (rows_of (toarray b))).
Proof.
  intros Hwf. rewrite <- wf_sp_astype in Hwf. unfold sparse_hstack.
  destruct (Nat.eqb_spec (sp_nrows a) (sp_nrows b)) as [Hn|]; [|discriminate].
  intros [= <-]. unfold toarray. cbn [sp_nrows sp_ncols sp_entries rows_of].
  change (map promote_entry (sp_entries a)) with (sp_entries (sp_astype a)).
  change (sp_ncols (sp_astype a)) with (sp_ncols a).
  change (sp_nrows (sp_astype a)) with (sp_nrows a).
  f_equal. rewrite <- Hn, zip_app_map. apply map_ext. intros i.
  rewrite seq_app, map_app. f_equal.
  - apply map_ext_in. intros j Hj. apply in_seq in Hj.
    unfold entry_at. rewrite hits_app, hits_shift_col_below by lia.
    now rewrite app_nil_r.
  - cbn [Nat.add].
    replace (seq (sp_ncols a) (sp_ncols b))
      with (map (fun j => sp_ncols a + j) (seq 0 (sp_ncols b)))
      by (rewrite map_add_seq; now rewrite Nat.add_0_r).
    rewrite map_map. apply map_ext. intros j.
    unfold entry_at. rewrite hits_app, hits_shift_col.
    rewrite (hits_outside_cols (sp_astype a))
      by (assumption || (unfold sp_astype; cbn [sp_ncols]; lia)).
    reflexivity.
Qed.

(** The sparse branch never fails for one output or more, and this is
    the COO matrix it builds. *)
Lemma transformer_x_sparse_ok (s : spmatrix A) (k : nat) :
  1 <= k ->
  multi_output_transformer_x (Sparse s) k
  = Ok (Sparse
          {| sp_nrows := k * sp_nrows s;
             sp_ncols := sp_ncols s + k;
             sp_entries :=
               map promote_entry (vstack_entries 0 (repeat s k))
                 ++ map (shift_col (sp_ncols s))
                      (nonzero_entries 0 (indicator_rows (sp_nrows s) k)) |}).
Proof.
  intros Hk.
  unfold multi_output_transformer_x, shape0, np_tile_object.
  rewrite sparse_vstack_repeat by assumption. cbn [bind].
  destruct k as [|k]; [lia|].
  unfold block_diag. cbn [repeat].
  change (?x :: repeat ?x k) with (repeat x (S k)).
  rewrite block_diag_ncols_ones, block_diag_rows_ones.
  unfold sparse_hstack, coo_matrix, sp_astype.
  cbn [sp_nrows sp_ncols sp_entries rows_of ncols_of].
  rewrite length_indicator_rows, Nat.eqb_refl. reflexivity.
Qed.
End SparseCastFacts.

(** ** [coo_matrix] of a dense matrix, and the sparse branch *)

Section SparseBranch.
Context {A : Type} {SA : Scalar A}.

Lemma row_entries_In (i j0 : nat) (r : list A) (e : nat * nat * A) :
  In e (row_entries i j0 r) -> fst (fst e) = i /\ j0 <= snd (fst e).
Proof.
  revert j0. induction r as [|x r IH]; intros j0 He; [contradiction|].
  cbn [row_entries] in He. apply in_app_or in He. destruct He as [He|He].
  - destruct (is_zero x); [contradiction|].
    destruct He as [<-|[]]. cbn. split; [reflexivity|lia].
  - apply IH in He. split; [tauto|lia].
Qed.

Lemma hits_row_entries_left (i j0 i' j : nat) (r : list A) :
  j < j0 -> hits (row_entries i j0 r) i' j = [].
Proof.
  intros Hj. apply hits_none. intros e He. apply row_entries_In in He.
  unfold at_pos. destruct (Nat.eqb_spec (snd (fst e)) j); [lia|].
  apply andb_false_r.
Qed.

Lemma hits_row_entries_other (i j0 i' j : nat) (r : list A) :
  i' <> i -> hits (row_entries i j0 r) i' j = [].
Proof.
  intros Hi. apply hits_none. intros e He. apply row_entries_In in He.
  unfold at_pos. destruct (Nat.eqb_spec (fst (fst e)) i'); [lia|reflexivity].
Qed.

Lemma hits_row_entries (i j0 c : nat) (r : list A) :
  hits (row_entries i j0 r) i (j0 + c)
  = match nth_error r c with
    | Some x => if is_zero x then [] else [x]
    | None => []
    end.
Proof.
  revert j0 c. induction r as [|x r IH]; intros j0 c.
  - now destruct c.
  - cbn [row_entries]. rewrite hits_app. destruct c as [|c]; cbn [nth_error].
    + rewrite hits_row_entries_left by lia. rewrite app_nil_r.
      destruct (is_zero x); [reflexivity|].
      rewrite hits_cons. unfold at_pos. cbn [fst snd].
      now rewrite Nat.add_0_r, !Nat.eqb_refl.
    + replace (j0 + S c) with (S j0 + c) by lia. rewrite IH.
      destruct (is_zero x); [reflexivity|].
      rewrite hits_cons. unfold at_pos. cbn [fst snd].
      destruct (Nat.eqb_spec j0 (S j0 + c)); [lia|].
      now rewrite andb_false_r.
Qed.

Lemma nonzero_entries_In (i0 : nat) (rows : list (list A)) (e : nat * nat * A) :
  In e (nonzero_entries i0 rows) -> i0 <= fst (fst e).
Proof.
  revert i0. induction rows as [|r rows IH]; intros i0 He; [contradiction|].
  cbn [nonzero_entries] in He. apply in_app_or in He. destruct He as [He|He].
  - apply row_entries_In in He. lia.
  - apply IH in He. lia.
Qed.

Lemma hits_nonzero_entries (i0 q j : nat) (rows : list (list A)) :
  hits (nonzero_entries i0 rows) (i0 + q) j
  = match nth_error rows q with
    | Some r => hits (row_entries (i0 + q) 0 r) (i0 + q) j
    | None => []
    end.
Proof.
  revert i0 q. induction rows as [|r rows IH]; intros i0 q.
  - now destruct q.
  - cbn [nonzero_entries]. rewrite hits_app. destruct q as [|q]; cbn [nth_error].
    + rewrite Nat.add_0_r. rewrite (hits_none (nonzero_entries (S i0) rows)).
      * apply app_nil_r.
      * intros e He. apply nonzero_entries_In in He. unfold at_pos.
        destruct (Nat.eqb_spec (fst (fst e)) i0); [lia|reflexivity].
    + rewrite hits_row_entries_other by lia. cbn [app].
      replace (i0 + S q) with (S i0 + q) by lia. apply IH.
Qed.

(** [coo_matrix] followed by [toarray] gives a matrix back when each of
    its elements is 0 if the zero test says so and is unchanged when added
    to 0. *)
Lemma entry_at_nonzero_entries (rows : list (list A)) (i j : nat) :
  Forall (Forall (fun x => (is_zero x = true -> x = zero) /\ add zero x = x))
         rows ->
  entry_at (nonzero_entries 0 rows) i j = nth j (nth i rows []) zero.
Proof.
  intros Hkept.
  unfold entry_at. pose proof (hits_nonzero_entries 0 i j rows) as E.
  cbn [Nat.add] in E. rewrite E. clear E.
  destruct (nth_error rows i) as [r|] eqn:Hr.
  - rewrite (nth_error_nth _ _ _ Hr).
    pose proof (hits_row_entries i 0 j r) as E.
    cbn [Nat.add] in E. rewrite E. clear E.
    destruct (nth_error r j) as [x|] eqn:Hx.
    + rewrite (nth_error_nth _ _ _ Hx).
      rewrite Forall_forall in Hkept.
      pose proof (Hkept r (nth_error_In _ _ Hr)) as Hrow.
      rewrite Forall_forall in Hrow.
      destruct (Hrow x (nth_error_In _ _ Hx)) as [Hz Ha].
      destruct (is_zero x); cbn.
      * symmetry. now apply Hz.
      * exact Ha.
    + apply nth_error_None in Hx. now rewrite nth_overflow.
  - apply nth_error_None in Hr. rewrite (nth_overflow _ _ Hr). now destruct j.
Qed.

Lemma toarray_coo_matrix (a : ndarray A) :
  Forall (Forall (fun x => (is_zero x = true -> x = zero) /\ add zero x = x))
         (rows_of a) ->
  Forall (fun r => length r = ncols_of a) (rows_of a) ->
  toarray (coo_matrix a) = Arr2 (ncols_of a) (rows_of a).
Proof.
  intros Hkept Hwf. unfold toarray, coo_matrix. cbn [sp_nrows sp_ncols sp_entries].
  f_equal.
  transitivity (map (fun i => nth i (rows_of a) []) (seq 0 (length (rows_of a))));
    [|apply map_nth_seq].
  apply map_ext_in. intros i Hi. apply in_seq in Hi.
  assert (Hlen : length (nth i (rows_of a) []) = ncols_of a).
  { rewrite Forall_forall in Hwf. apply Hwf, nth_In. lia. }
  transitivity (map (fun j => nth j (nth i (rows_of a) []) zero)
                    (seq 0 (ncols_of a))).
  - apply map_ext. intros j. now apply entry_at_nonzero_entries.
  - rewrite <- Hlen. apply map_nth_seq.
Qed.

Lemma Forall_length_indicator_rows (n k : nat) :
  Forall (fun r : list A => length r = k) (indicator_rows n k).
Proof.
  unfold indicator_rows. apply Forall_concat, Forall_forall. intros c Hc.
  apply in_map_iff in Hc. destruct Hc as [j [<- _]].
  apply Forall_forall. intros r Hr. apply repeat_spec in Hr. subst r.
  apply length_one_hot.
Qed.

Lemma indicator_rows_kept {LA : ScalarLaws SA} (n k : nat) :
  Forall (Forall (fun x : A => (is_zero x = true -> x = zero) /\ add zero x = x))
         (indicator_rows n k).
Proof.
  unfold indicator_rows. apply Forall_concat, Forall_forall. intros c Hc.
  apply in_map_iff in Hc. destruct Hc as [j [<- _]].
  apply Forall_forall. intros r Hr. apply repeat_spec in Hr. subst r.
  unfold one_hot. apply Forall_map, Forall_forall. intros c _.
  destruct (c =? j).
  - split; [|apply add_zero_one].
    intros Hone. rewrite is_zero_one in Hone. discriminate.
  - split; [reflexivity|apply add_zero_zero].
Qed.
End SparseBranch.

Section SparseBranchCast.
Context {A F : Type} {SF : Scalar F} {LF : ScalarLaws SF} {PA : Promote A F}.

(** Read back as a dense matrix, the result of the sparse branch is the
    stacked matrix of X converted to float64. *)
Lemma toarray_transformer_x_sparse (s : spmatrix A) (s' : spmatrix F) (k : nat) :
  wf_spmatrix s = true ->
  1 <= k ->
  multi_output_transformer_x (Sparse s) k = Ok (Sparse s') ->
  toarray s'
  = Arr2 (sp_ncols s + k) (stacked_rows (rows_of (toarray (sp_astype s))) k).
Proof.
  intros Hwf Hk. rewrite transformer_x_sparse_ok by assumption.
  intros [= <-].
  set (v := {| sp_nrows := k * sp_nrows s;
               sp_ncols := sp_ncols s;
               sp_entries := vstack_entries 0 (repeat s k) |}).
  set (ind := coo_matrix (Arr2 k (indicator_rows (F:=F) (sp_nrows s) k))).
  assert (Hh : sparse_hstack v ind
               = Ok {| sp_nrows := k * sp_nrows s;
                       sp_ncols := sp_ncols s + k;
                       sp_entries :=
                         map promote_entry (vstack_entries 0 (repeat s k))
                           ++ map (shift_col (sp_ncols s))
                                (nonzero_entries 0
                                   (indicator_rows (sp_nrows s) k)) |}).
  { unfold sparse_hstack, v, ind, coo_matrix, sp_astype.
    cbn [sp_nrows sp_ncols sp_entries rows_of ncols_of].
    now rewrite length_indicator_rows, Nat.eqb_refl. }
  rewrite (toarray_hstack v ind (wf_vstack_repeat s k Hwf) Hh).
  f_equal. unfold v. rewrite sp_astype_vstack_repeat.
  assert (Hwf' : wf_spmatrix (sp_astype s) = true)
    by now rewrite wf_sp_astype.
  rewrite (toarray_vstack_repeat (sp_astype s) k Hwf').
  unfold ind. rewrite toarray_coo_matrix
    by (cbn [ncols_of rows_of];
        apply indicator_rows_kept || apply Forall_length_indicator_rows).
  cbn [rows_of].
  pose proof (zip_app_indicator (rows_of (toarray (sp_astype s))) k) as E.
  rewrite (proj1 (toarray_shape (sp_astype s))) in E. exact E.
Qed.
End SparseBranchCast.

(** ** Reshaping in Fortran order *)

Section ReshapeFacts.
Context {A : Type} `{Scalar A}.

Lemma nth_map_in {B C : Type} (f : B -> C) (l : list B) (i : nat) (b : B) (c : C) :
  i < length l -> nth i (map f l) c = f (nth i l b).
Proof.
  intros Hi. destruct (nth_error l i) as [x|] eqn:Hx.
  - rewrite (nth_error_nth _ _ b Hx). apply nth_error_nth.
    now rewrite nth_error_map, Hx.
  - apply nth_error_None in Hx. lia.
Qed.

Lemma transpose_transpose (k : nat) (rows : list (list A)) :
  Forall (fun r => length r = k) rows ->
  transpose zero (length rows) (transpose zero k rows) = rows.
Proof.
  intros Hwf. rewrite !transpose_map_seq.
  transitivity (map (fun i => nth i rows []) (seq 0 (length rows)));
    [|apply map_nth_seq].
  apply map_ext_in. intros i Hi. apply in_seq in Hi. rewrite map_map.
  assert (Hlen : length (nth i rows []) = k).
  { rewrite Forall_forall in Hwf. apply Hwf, nth_In. lia. }
  transitivity (map (fun j => nth j (nth i rows []) zero) (seq 0 k)).
  - apply map_ext. intros j.
    apply (nth_map_in (fun r => nth j r zero) rows [] zero). lia.
  - rewrite <- Hlen. apply map_nth_seq.
Qed.

Lemma length_ravel_F (k : nat) (rows : list (list A)) :
  length (ravel_F (Arr2 k rows)) = k * length rows.
Proof.
  cbn [ravel_F]. rewrite length_concat_uniform with (n := length rows).
  - now rewrite length_transpose.
  - apply Forall_length_transpose.
Qed.

(** Element [j * n + i] of the flattened matrix is element [(i, j)]. *)
Lemma ravel_F_index (k : nat) (rows : list (list A)) (i j : nat) (r : list A) (x : A) :
  j < k ->
  nth_error rows i = Some r ->
  nth_error r j = Some x ->
  nth_error (ravel_F (Arr2 k rows)) (j * length rows + i) = Some x.
Proof.
  intros Hj Hr Hx. cbn [ravel_F].
  assert (Hi : i < length rows) by (apply nth_error_Some; congruence).
  rewrite nth_error_concat_uniform
    by (apply Forall_length_transpose || exact Hi).
  rewrite nth_error_transpose by assumption.
  rewrite nth_error_map, Hr. cbn. f_equal. now apply nth_error_nth.
Qed.

Lemma reshape_cols_F_exact (v : list A) (n k : nat) :
  1 <= k ->
  length v = n * k ->
  reshape_cols_F (Arr1 v) k
  = Ok (Arr2 k (transpose zero n (chunks n k v))).
Proof.
  intros Hk Hlen. unfold reshape_cols_F. cbn [ravel_F].
  destruct (Nat.eqb_spec k 0) as [|_]; [lia|].
  rewrite Hlen, Nat.Div0.mod_mul, Nat.div_mul by lia. reflexivity.
Qed.

(** Element [(i, j)] of the unflattened vector is element [j * n + i]. *)
Lemma unravel_F_index (v : list A) (n k i j : nat) :
  length v = n * k ->
  i < n -> j < k ->
  exists r,
    nth_error (transpose zero n (chunks n k v)) i = Some r
    /\ nth_error r j = nth_error v (j * n + i).
Proof.
  intros Hlen Hi Hj. eexists. split.
  - now apply nth_error_transpose.
  - rewrite nth_error_map, nth_error_chunks by assumption. cbn.
    assert (Hin : j * n + i < length v) by nia.
    assert (Hc : i < length (firstn n (skipn (j * n) v))).
    { rewrite length_firstn, length_skipn. nia. }
    rewrite <- (nth_error_nth' _ zero Hc).
    rewrite nth_error_firstn.
    destruct (Nat.ltb_spec i n); [|lia].
    now rewrite nth_error_skipn.
Qed.

Lemma reshape_round_trip (k : nat) (rows : list (list A)) :
  1 <= k ->
  Forall (fun r => length r = k) rows ->
  reshape_cols_F (reshape_flat_F (Arr2 k rows)) k = Ok (Arr2 k rows).
Proof.
  intros Hk Hwf. unfold reshape_flat_F.
  rewrite reshape_cols_F_exact with (n := length rows)
    by (assumption || rewrite length_ravel_F; lia).
  cbn [ravel_F]. do 2 f_equal.
  pose proof (chunks_concat (Forall_length_transpose zero k rows)) as E.
  rewrite length_transpose in E. rewrite E.
  now apply transpose_transpose.
Qed.
End ReshapeFacts.

(** ** The forward transform on a matrix *)

Section DensifyFacts.
Context {A : Type} {SA : Scalar A}.

Lemma densify_shape (X : matrix A) (n f : nat) :
  wf_matrix X = true ->
  mshape X = Some (n, f) ->
  densify X = Arr2 f (rows_of (densify X))
  /\ length (rows_of (densify X)) = n
  /\ Forall (fun r => length r = f) (rows_of (densify X)).
Proof.
  intros Hwf HX. destruct X as [[v|nc rows]|s]; try discriminate.
  - injection HX as <- <-. cbn. repeat split. now apply forallb_length.
  - injection HX as <- <-. cbn [densify]. split; [reflexivity|].
    apply toarray_shape.
Qed.
End DensifyFacts.

Section ForwardFacts.
Context {A B F : Type} {SB : Scalar B} {SF : Scalar F} {PA : Promote A F}.

Lemma transformer_x_matrix (X : matrix A) (n f k : nat) :
  mshape X = Some (n, f) ->
  1 <= k ->
  exists X' : matrix F,
    multi_output_transformer_x X k = Ok X'
    /\ mshape X' = Some (k * n, f + k)
    /\ issparse X' = issparse X.
Proof.
  intros HX Hk. destruct X as [[v|nc rows]|s]; try discriminate.
  - injection HX as <- <-. eexists. split; [|split].
    + now apply transformer_x_dense.
    + cbn [mshape rows_of ncols_of].
      now rewrite length_stacked_rows, length_map.
    + reflexivity.
  - injection HX as <- <-. eexists. split; [|split].
    + now apply transformer_x_sparse_ok.
    + reflexivity.
    + reflexivity.
Qed.

Lemma mshape_astype_float64 (X : matrix A) :
  mshape (astype_float64 X : matrix F) = mshape X.
Proof.
  destruct X as [[v|nc rows]|s]; cbn; try reflexivity.
  now rewrite length_map.
Qed.

Lemma wf_astype_float64 (X : matrix A) :
  wf_matrix (astype_float64 X : matrix F) = wf_matrix X.
Proof.
  destruct X as [[v|nc rows]|s]; cbn [astype_float64 wf_matrix].
  - reflexivity.
  - cbn [np_astype wf_ndarray]. induction rows as [|r rows IH]; [reflexivity|].
    cbn [map forallb]. now rewrite IH, length_map.
  - apply wf_sp_astype.
Qed.

Lemma transform_x_y_matrix (X : matrix A) (k : nat) (rowsY : list (list B)) :
  multi_output_transform_x_y X (Arr2 k rowsY)
  = rmap (fun X' : matrix F => (X', multi_output_transform_y (Arr2 k rowsY)))
         (multi_output_transformer_x X k).
Proof.
  unfold multi_output_transform_x_y. cbn [shape_at shape nth_error bind].
  now destruct (multi_output_transformer_x X k).
Qed.

Context {LF : ScalarLaws SF}.

(** Read as a dense matrix, the result is the stacked matrix of X
    converted to float64. *)
Lemma densify_transformer_x (X : matrix A) (X' : matrix F) (n f k : nat) :
  wf_matrix X = true ->
  mshape X = Some (n, f) ->
  1 <= k ->
  multi_output_transformer_x X k = Ok X' ->
  densify X'
  = Arr2 (f + k) (stacked_rows (rows_of (densify (astype_float64 X))) k).
Proof.
  intros Hwf HX Hk. destruct X as [[v|nc rows]|s]; try discriminate.
  - injection HX as <- <-. rewrite transformer_x_dense by (assumption || reflexivity).
    now intros [= <-].
  - injection HX as <- <-. intros HX'.
    destruct X' as [a|s'].
    + rewrite transformer_x_sparse_ok in HX' by assumption. discriminate.
    + cbn [densify astype_float64]. now apply toarray_transformer_x_sparse.
Qed.
End ForwardFacts.

#[export] Instance Z_ScalarLaws : ScalarLaws Z_Scalar.
Proof. split; reflexivity. Qed.

(** IEEE 754 binary64 has what the proofs use. *)
#[export] Instance binary64_ScalarLaws : ScalarLaws binary64_Scalar.
Proof. split; reflexivity. Qed.

(** * The properties of the specification *)

Section Claims.
Context {A B F : Type} {SB : Scalar B} {SF : Scalar F} {PA : Promote A F}.

(** C1, round trip: for a dense target matrix Y of shape (n, k) with
    n, k >= 1 and a feature matrix X with n rows, the forward transform
    succeeds and the inverse transform with the same k, applied to the
    flattened target it returns, gives back exactly Y. *)
Theorem round_trip (X : matrix A) (n f k : nat) (rowsY : list (list B)) :
  1 <= n -> 1 <= k ->
  mshape X = Some (n, f) ->
  length rowsY = n ->
  wf_ndarray (Arr2 k rowsY) = true ->
  exists X' y',
    multi_output_transform_x_y X (Arr2 k rowsY) = Ok (X', y')
    /\ multi_output_inverse_transform_y y' k = Ok (Arr2 k rowsY).
Proof.
  intros _ Hk HX _ HY.
  destruct (transformer_x_matrix X HX Hk) as [X' [HX' _]].
  exists X', (multi_output_transform_y (Arr2 k rowsY)). split.
  - now rewrite transform_x_y_matrix, HX'.
  - apply reshape_round_trip; [assumption|]. now apply forallb_length.
Qed.

(** C2, as amended: the forward transform does not compare the row counts.
    For X of shape (m, f) and Y of shape (n, k) with m <> n and k >= 1 it
    returns a stacked matrix of shape (m * k, f + k) and a flat target of
    length n * k. *)
Theorem forward_ignores_row_mismatch
        (X : matrix A) (m n f k : nat) (rowsY : list (list B)) :
  m <> n -> 1 <= k ->
  mshape X = Some (m, f) ->
  length rowsY = n ->
  exists X' y',
    multi_output_transform_x_y X (Arr2 k rowsY) = Ok (X', Arr1 y')
    /\ mshape X' = Some (m * k, f + k)
    /\ length y' = n * k.
Proof.
  intros _ Hk HX HY.
  destruct (transformer_x_matrix X HX Hk) as [X' [HX' [Hsh _]]].
  exists X', (ravel_F (Arr2 k rowsY)). split; [|split].
  - now rewrite transform_x_y_matrix, HX'.
  - now rewrite Nat.mul_comm.
  - rewrite length_ravel_F. lia.
Qed.

(** C3, shape invariant: for X of shape (n, f) and Y of shape (n, k) with
    n, f, k >= 1 the forward transform returns a stacked matrix with
    exactly n * k rows, of f + k columns each, and a flat target of
    length n * k. *)
Theorem shape_invariant (X : matrix A) (n f k : nat) (rowsY : list (list B)) :
  1 <= n -> 1 <= f -> 1 <= k ->
  wf_matrix X = true ->
  mshape X = Some (n, f) ->
  length rowsY = n ->
  wf_ndarray (Arr2 k rowsY) = true ->
  exists X' y',
    multi_output_transform_x_y X (Arr2 k rowsY) = Ok (X', Arr1 y')
    /\ mshape X' = Some (n * k, f + k)
    /\ shape (densify X') = [n * k; f + k]
    /\ wf_ndarray (densify X') = true
    /\ length y' = n * k.
Proof.
  intros _ _ Hk Hwf HX HY _.
  exists (match multi_output_transformer_x X k with
          | Ok X' => X'
          | Raise _ => astype_float64 X
          end), (ravel_F (Arr2 k rowsY)).
  rewrite transform_x_y_matrix.
  destruct X as [[v|nc rows]|s]; try discriminate; injection HX as <- <-.
  - rewrite transformer_x_dense by (assumption || reflexivity).
    cbn [rmap densify mshape shape wf_ndarray rows_of ncols_of].
    rewrite length_stacked_rows, length_map, (Nat.mul_comm k).
    repeat split.
    + apply forallb_length, Forall_length_stacked_rows.
      apply Forall_map. apply forallb_length in Hwf.
      eapply Forall_impl; [|exact Hwf]. cbn. intros r Hr.
      now rewrite length_map.
    + rewrite length_ravel_F. lia.
  - rewrite transformer_x_sparse_ok by assumption.
    cbn [rmap densify mshape]. unfold toarray.
    cbn [shape wf_ndarray sp_nrows sp_ncols].
    rewrite length_map, length_seq, (Nat.mul_comm k).
    repeat split.
    + apply forallb_length, Forall_forall. intros r Hr.
      apply in_map_iff in Hr. destruct Hr as [i [<- _]].
      now rewrite length_map, length_seq.
    + rewrite length_ravel_F. lia.
Qed.

(** C5, column-major correspondence: for Y of shape (n, k) the flat target
    satisfies y'[j * n + i] = Y[i][j] for all i < n and j < k; and for a
    flat y_pred of length n * k, k >= 1, the inverse transform returns a
    matrix with Y_pred[i][j] = y_pred[j * n + i]. *)
Theorem column_major_correspondence
        (n k : nat) (rowsY : list (list B)) (y_pred : list B) :
  1 <= k ->
  length rowsY = n ->
  wf_ndarray (Arr2 k rowsY) = true ->
  length y_pred = n * k ->
  (forall i j, i < n -> j < k ->
     exists x,
       get2 (Arr2 k rowsY) i j = Some x
       /\ get1 (multi_output_transform_y (Arr2 k rowsY)) (j * n + i) = Some x)
  /\ exists Y_pred,
       multi_output_inverse_transform_y (Arr1 y_pred) k = Ok Y_pred
       /\ shape Y_pred = [n; k]
       /\ forall i j, i < n -> j < k ->
            exists x,
              get1 (Arr1 y_pred) (j * n + i) = Some x
              /\ get2 Y_pred i j = Some x.
Proof.
  intros Hk Hn HY Hlen. split.
  - intros i j Hi Hj. apply forallb_length in HY.
    destruct (nth_error rowsY i) as [r|] eqn:Hr;
      [|apply nth_error_None in Hr; lia].
    assert (Hlr : length r = k).
    { rewrite Forall_forall in HY. eapply HY, nth_error_In, Hr. }
    destruct (nth_error r j) as [x|] eqn:Hx;
      [|apply nth_error_None in Hx; lia].
    exists x. cbn [get2 get1 multi_output_transform_y reshape_flat_F].
    rewrite Hr. split; [exact Hx|].
    rewrite <- Hn. now apply ravel_F_index with (r := r).
  - unfold multi_output_inverse_transform_y.
    rewrite reshape_cols_F_exact with (n := n) by assumption.
    eexists. split; [reflexivity|]. split.
    + cbn [shape]. now rewrite length_transpose.
    + intros i j Hi Hj.
      destruct (unravel_F_index y_pred Hlen Hi Hj) as [r [Hr Hx]].
      assert (Hin : j * n + i < length y_pred) by nia.
      destruct (nth_error y_pred (j * n + i)) as [x|] eqn:Hy;
        [|apply nth_error_None in Hy; lia].
      exists x. cbn [get1 get2]. now rewrite Hy, Hr.
Qed.

(** C6: when the length of the flat input is not divisible by k >= 1, the
    inverse transform raises the shape error and returns nothing. *)
Theorem inverse_rejects_indivisible_length (y_pred : list B) (k : nat) :
  1 <= k ->
  length y_pred mod k <> 0 ->
  multi_output_inverse_transform_y (Arr1 y_pred) k = Raise ShapeError.
Proof.
  intros Hk Hmod.
  unfold multi_output_inverse_transform_y, reshape_cols_F. cbn [ravel_F].
  destruct (Nat.eqb_spec k 0) as [|_]; [lia|].
  destruct (Nat.eqb_spec (length y_pred mod k) 0) as [|_]; [contradiction|].
  reflexivity.
Qed.

(** C9, the stacked matrix depends on Y through its number of columns
    only: two target matrices with k columns, whatever their rows, give
    the same first component (or the same error). *)
Theorem stacked_matrix_independent_of_targets
        (X : matrix A) (k : nat) (rowsY1 rowsY2 : list (list B)) :
  rmap fst (multi_output_transform_x_y X (Arr2 k rowsY1))
  = rmap fst (multi_output_transform_x_y X (Arr2 k rowsY2)).
Proof.
  rewrite !transform_x_y_matrix.
  now destruct (multi_output_transformer_x X k).
Qed.

(** C10: a target of one dimension makes the combined forward transform
    raise IndexError at [y.shape[1]], whatever X; a single output is
    accepted as a matrix of one column. *)
Theorem one_dimensional_target_rejected
        (X : matrix A) (y : list B) (rowsY : list (list B)) :
  multi_output_transform_x_y X (Arr1 y) = Raise IndexError
  /\ (forall n f, mshape X = Some (n, f) ->
      exists X' y',
        multi_output_transform_x_y X (Arr2 1 rowsY) = Ok (X', y')
        /\ mshape X' = Some (n, f + 1)).
Proof.
  split; [reflexivity|]. intros n f HX.
  destruct (transformer_x_matrix X HX (le_n 1)) as [X' [HX' [Hsh _]]].
  exists X', (multi_output_transform_y (Arr2 1 rowsY)). split.
  - now rewrite transform_x_y_matrix, HX'.
  - now rewrite Nat.mul_1_l in Hsh.
Qed.

Context {LF : ScalarLaws SF}.

(** C4, as amended: row structure.  For X of shape (n, f), k >= 1, j < k
    and i < n, row j * n + i of the stacked matrix is row i of X converted
    to float64, that is, row i of [X.astype(float64)], followed by the
    one-hot vector e_j of length k; so in that row the indicator column
    f + c, c < k, holds 1 for c = j and 0 otherwise. *)
Theorem stacked_row_structure (X : matrix A) (n f k j i : nat) :
  wf_matrix X = true ->
  mshape X = Some (n, f) ->
  1 <= k -> j < k -> i < n ->
  exists (X' : matrix F) (r : list F),
    multi_output_transformer_x X k = Ok X'
    /\ get_row (densify (astype_float64 X)) i = Some r
    /\ get_row (densify X') (j * n + i) = Some (r ++ one_hot j k)
    /\ forall c, c < k ->
         get2 (densify X') (j * n + i) (f + c)
         = Some (if c =? j then one else zero).
Proof.
  intros Hwf HX Hk Hj Hi.
  destruct (transformer_x_matrix X HX Hk) as [X' [HX' _]].
  assert (Hwf' : wf_matrix (astype_float64 X : matrix F) = true)
    by now rewrite wf_astype_float64.
  assert (HXF : mshape (astype_float64 X : matrix F) = Some (n, f))
    by now rewrite mshape_astype_float64.
  destruct (densify_shape (astype_float64 X) Hwf' HXF) as [HD [Hlen Hall]].
  pose proof (densify_transformer_x X Hwf HX Hk HX') as HD'.
  destruct (nth_error (rows_of (densify (astype_float64 X))) i) as [r|] eqn:Hr;
    [|apply nth_error_None in Hr; lia].
  assert (Hlr : length r = f).
  { rewrite Forall_forall in Hall. eapply Hall, nth_error_In, Hr. }
  assert (Hrow : nth_error (stacked_rows (rows_of (densify (astype_float64 X))) k)
                           (j * n + i)
                 = Some (r ++ one_hot j k)).
  { rewrite <- Hlen. now apply nth_error_stacked_rows. }
  exists X', r. split; [exact HX'|]. split; [|split].
  - rewrite HD. exact Hr.
  - rewrite HD'. exact Hrow.
  - intros c Hc. rewrite HD'. cbn [get2]. rewrite Hrow.
    rewrite nth_error_app2 by lia.
    replace (f + c - length r) with c by lia.
    unfold one_hot. rewrite nth_error_map.
    rewrite nth_error_nth' with (d := 0) by now rewrite length_seq.
    now rewrite seq_nth.
Qed.
End Claims.

Section ClaimsFloat64.
Context {B F : Type} {SB : Scalar B} {SF : Scalar F} {LF : ScalarLaws SF}
        {PF : Promote F F}.

End ClaimsFloat64.

(** C4, as stated, fails: the int64 entry 2^53 + 1 of X comes back as the
    float64 number 2^53. *)
Lemma stacked_row_is_rounded :
  mshape X_big = Some (1, 1)
  /\ get_row (densify X_big) 0 = Some [I64 9007199254740993]
  /\ multi_output_transformer_x X_big 1
     = Ok (Dense (Arr2 2 [[9007199254740992; 1]]%Z))
  /\ [9007199254740992; 1]%Z
     <> map int64_value [I64 9007199254740993] ++ one_hot 0 1.
Proof. repeat split. discriminate. Qed.


(** C2, as stated, fails: X with three rows and Y with two are accepted. *)
Lemma row_mismatch_is_not_rejected :
  mshape X_3rows = Some (3, 1)
  /\ shape Y_ex = [2; 2]
  /\ multi_output_transform_x_y X_3rows Y_ex
     = Ok (Dense (Arr2 3 [[1; 1; 0]; [2; 1; 0]; [3; 1; 0];
                          [1; 0; 1]; [2; 0; 1]; [3; 0; 1]]%Z),
           Arr1 [10; 20; 100; 200]%Z)
  /\ multi_output_transform_x_y X_3rows Y_ex <> Raise ShapeError.
Proof. repeat split. discriminate. Qed.

(** C8, the worked example: X = [[1],[2]] and Y = [[10,100],[20,200]]. *)
Theorem worked_example :
  multi_output_transform_x_y X_ex Y_ex
  = Ok (Dense (Arr2 3 [[1; 1; 0]; [2; 1; 0]; [1; 0; 1]; [2; 0; 1]]%Z),
        Arr1 [10; 20; 100; 200]%Z)
  /\ multi_output_inverse_transform_y (Arr1 [10; 20; 100; 200]%Z) 2
     = Ok (Arr2 2 [[10; 100]; [20; 200]]%Z).
Proof. split; reflexivity. Qed.

(** ** The theorems at the concrete inputs *)

Ltac evaluated := first [lia | reflexivity | discriminate].

Lemma round_trip_witness :
  (1 <= 2 /\ 1 <= 2 /\ mshape X_ex = Some (2, 1) /\ length rows_Y_ex = 2
   /\ wf_ndarray Y_ex = true)
  /\ exists X' y',
      multi_output_transform_x_y X_ex Y_ex = Ok (X', y')
      /\ multi_output_inverse_transform_y y' 2 = Ok Y_ex.
Proof.
  split; [repeat split; evaluated|].
  apply (@round_trip Z Z Z _ _ _ X_ex 2 1 2 rows_Y_ex); evaluated.
Defined.

Lemma forward_ignores_row_mismatch_witness :
  (3 <> 2 /\ 1 <= 2 /\ mshape X_3rows = Some (3, 1) /\ length rows_Y_ex = 2)
  /\ exists X' y',
      multi_output_transform_x_y X_3rows Y_ex = Ok (X', Arr1 y')
      /\ mshape X' = Some (3 * 2, 1 + 2)
      /\ length y' = 2 * 2.
Proof.
  split; [repeat split; evaluated|].
  apply (@forward_ignores_row_mismatch Z Z Z _ _ _ X_3rows 3 2 1 2 rows_Y_ex);
    evaluated.
Defined.

Lemma shape_invariant_witness :
  (1 <= 2 /\ 1 <= 1 /\ 1 <= 2 /\ wf_matrix (Sparse S_ex) = true
   /\ mshape (Sparse S_ex) = Some (2, 1) /\ length rows_Y_ex = 2
   /\ wf_ndarray Y_ex = true)
  /\ exists X' y',
      multi_output_transform_x_y (Sparse S_ex) Y_ex = Ok (X', Arr1 y')
      /\ mshape X' = Some (2 * 2, 1 + 2)
      /\ shape (densify X') = [2 * 2; 1 + 2]
      /\ wf_ndarray (densify X') = true
      /\ length y' = 2 * 2.
Proof.
  split; [repeat split; evaluated|].
  apply (@shape_invariant Z Z Z _ _ _ (Sparse S_ex) 2 1 2 rows_Y_ex); evaluated.
Defined.

Lemma stacked_row_structure_witness :
  (wf_matrix X_big = true /\ mshape X_big = Some (1, 1) /\ 1 <= 2 /\ 1 < 2
   /\ 0 < 1)
  /\ exists (X' : matrix Z) (r : list Z),
      multi_output_transformer_x X_big 2 = Ok X'
      /\ get_row (densify (astype_float64 X_big)) 0 = Some r
      /\ get_row (densify X') (1 * 1 + 0) = Some (r ++ one_hot 1 2)
      /\ forall c, c < 2 ->
           get2 (densify X') (1 * 1 + 0) (1 + c)
           = Some (if c =? 1 then one else zero).
Proof.
  split; [repeat split; evaluated|].
  apply (@stacked_row_structure int64 Z _ _ _ X_big 1 1 2 1 0); evaluated.
Defined.

Lemma column_major_correspondence_witness :
  (1 <= 2 /\ length rows_Y_ex = 2 /\ wf_ndarray Y_ex = true
   /\ length y_flat4 = 2 * 2)
  /\ (forall i j, i < 2 -> j < 2 ->
        exists x,
          get2 Y_ex i j = Some x
          /\ get1 (multi_output_transform_y Y_ex) (j * 2 + i) = Some x)
  /\ exists Y_pred,
      multi_output_inverse_transform_y (Arr1 y_flat4) 2 = Ok Y_pred
      /\ shape Y_pred = [2; 2]
      /\ forall i j, i < 2 -> j < 2 ->
           exists x,
             get1 (Arr1 y_flat4) (j * 2 + i) = Some x
             /\ get2 Y_pred i j = Some x.
Proof.
  split; [repeat split; evaluated|].
  apply (@column_major_correspondence Z _ 2 2 rows_Y_ex y_flat4); evaluated.
Defined.

Lemma inverse_rejects_indivisible_length_witness :
  (1 <= 2 /\ length y_flat5 mod 2 <> 0)
  /\ multi_output_inverse_transform_y (Arr1 y_flat5) 2 = Raise ShapeError.
Proof.
  split; [split; [lia | vm_compute; lia]|].
  apply (@inverse_rejects_indivisible_length Z _ y_flat5 2);
    [lia | vm_compute; lia].
Defined.


Lemma one_dimensional_target_rejected_witness :
  multi_output_transform_x_y X_ex (Arr1 y_flat4) = Raise IndexError
  /\ (mshape X_ex = Some (2, 1)
      /\ exists X' y',
          multi_output_transform_x_y X_ex (Arr2 1 [[10]; [20]]%Z) = Ok (X', y')
          /\ mshape X' = Some (2, 1 + 1)).
Proof.
  destruct (@one_dimensional_target_rejected Z Z Z _ _ _ X_ex y_flat4
              [[10]; [20]]%Z) as [Hflat Hcol].
  split; [exact Hflat|]. split; [reflexivity|].
  apply Hcol. reflexivity.
Defined.

(** * Further properties of the transformer functions *)

(** ** More on lists *)

Section ChunkFacts.
Context {A : Type}.

Lemma Forall_length_chunks (n k : nat) (v : list A) :
  k * n <= length v -> Forall (fun c => length c = n) (chunks n k v).
Proof.
  revert v. induction k as [|k IH]; intros v Hlen; cbn [chunks]; constructor.
  - rewrite length_firstn. cbn in Hlen. lia.
  - apply IH. rewrite length_skipn. cbn in Hlen. lia.
Qed.

Lemma concat_chunks (n k : nat) (v : list A) :
  length v = k * n -> concat (chunks n k v) = v.
Proof.
  revert v. induction k as [|k IH]; intros v Hlen; cbn [chunks concat].
  - now destruct v.
  - rewrite IH by (rewrite length_skipn; cbn in Hlen; lia).
    apply firstn_skipn.
Qed.

Lemma app_inj_length (l1 l2 m1 m2 : list A) :
  length l1 = length l2 -> l1 ++ m1 = l2 ++ m2 -> l1 = l2 /\ m1 = m2.
Proof.
  revert l2. induction l1 as [|x l1 IH]; intros [|y l2] Hlen Heq;
    try discriminate; [now split|].
  cbn in Heq. injection Heq as -> Heq.
  destruct (IH l2) as [-> ->]; auto.
Qed.

Lemma list_sum_all_ones {B : Type} (g : B -> nat) (l : list B) :
  (forall b, In b l -> g b = 1) -> list_sum (map g l) = length l.
Proof.
  induction l as [|b l IH]; intros Hall; [reflexivity|].
  cbn [map length]. change (list_sum (g b :: map g l)) with (g b + list_sum (map g l)).
  rewrite Hall, IH; [reflexivity| |now left].
  intros b' Hb'. apply Hall. now right.
Qed.
End ChunkFacts.

Section MoreProperties.
Context {A B F : Type} {SB : Scalar B} {SF : Scalar F} {PA : Promote A F}.

(** X1: for a matrix X (dense of two dimensions, or sparse) the forward
    transform succeeds exactly when Y has a column: with none it raises
    ValueError, with one or more it returns a result that is sparse when X
    is and dense when X is. *)
Theorem forward_needs_an_output_column
        (X : matrix A) (n f k : nat) (rowsY : list (list B)) :
  mshape X = Some (n, f) ->
  (k = 0 -> multi_output_transform_x_y X (Arr2 k rowsY) = Raise ValueError)
  /\ (1 <= k ->
      exists X' y',
        multi_output_transform_x_y X (Arr2 k rowsY) = Ok (X', y')
        /\ issparse X' = issparse X).
Proof.
  intros HX. split.
  - intros ->. now rewrite transform_x_y_matrix, transformer_x_zero.
  - intros Hk. destruct (transformer_x_matrix X HX Hk) as [X' [HX' [_ Hsp]]].
    exists X', (multi_output_transform_y (Arr2 k rowsY)).
    split; [|exact Hsp]. now rewrite transform_x_y_matrix, HX'.
Qed.

(** X2: a dense X of one dimension is tiled as a single row, so for one
    output or more it is rejected with ValueError unless its length is 1. *)
Theorem vector_of_features_rejected (v : list A) (k : nat) :
  1 <= k ->
  length v <> 1 ->
  multi_output_transformer_x (Dense (Arr1 v)) k = Raise ValueError.
Proof.
  intros Hk Hv. unfold multi_output_transformer_x, shape0.
  destruct k as [|k]; [lia|]. cbn [shape hd].
  unfold block_diag. cbn [repeat].
  change (?x :: repeat ?x k) with (repeat x (S k)).
  rewrite block_diag_ncols_ones, block_diag_rows_ones.
  unfold np_tile, np_hstack, np_astype, bind.
  rewrite length_map, length_concat_repeat, length_indicator_rows.
  cbn [rows_of length].
  destruct (Nat.eqb_spec (S k * 1) (S k * length v)) as [E|_]; [|reflexivity].
  exfalso. nia.
Qed.

(** X3: flattening undoes unflattening.  Whenever the inverse transform
    accepts a flat vector, its result is a matrix with rows of equal length
    and the forward flattening of that matrix is the vector again. *)
Theorem flatten_undoes_unflatten (y_pred : list B) (k : nat) (Y : ndarray B) :
  multi_output_inverse_transform_y (Arr1 y_pred) k = Ok Y ->
  wf_ndarray Y = true
  /\ shape Y = [length y_pred / k; k]
  /\ multi_output_transform_y Y = Arr1 y_pred.
Proof.
  unfold multi_output_inverse_transform_y, reshape_cols_F. cbn [ravel_F].
  destruct (Nat.eqb_spec k 0) as [|Hk]; [discriminate|].
  destruct (Nat.eqb_spec (length y_pred mod k) 0) as [Hmod|]; [|discriminate].
  intros [= <-]. set (n := length y_pred / k).
  assert (Hlen : length y_pred = k * n) by now apply Nat.Div0.div_exact.
  assert (Hch : Forall (fun c => length c = n) (chunks n k y_pred))
    by (apply Forall_length_chunks; lia).
  split; [|split].
  - cbn [wf_ndarray]. apply forallb_length.
    pose proof (Forall_length_transpose zero n (chunks n k y_pred)) as Hall.
    now rewrite length_chunks in Hall.
  - cbn [shape]. now rewrite length_transpose.
  - unfold multi_output_transform_y, reshape_flat_F. cbn [ravel_F]. f_equal.
    pose proof (transpose_transpose Hch) as E.
    rewrite length_chunks in E. rewrite E.
    now apply concat_chunks.
Qed.

(** X9: with a single output the forward transform converts a dense X to
    float64, appends one column of ones and returns the only column of
    Y. *)
Theorem single_output_appends_ones
        (f : nat) (rows : list (list A)) (rowsY : list (list B)) :
  multi_output_transform_x_y (Dense (Arr2 f rows)) (Arr2 1 rowsY)
  = Ok (Dense (Arr2 (f + 1) (map (fun r => map promote r ++ [one]) rows)),
        Arr1 (map (hd zero) rowsY)).
Proof.
  rewrite transform_x_y_matrix.
  rewrite transformer_x_dense by (lia || reflexivity).
  cbn [rmap rows_of ncols_of]. unfold stacked_rows, one_hot.
  cbn [seq map concat Nat.eqb]. rewrite app_nil_r, map_map.
  unfold multi_output_transform_y, reshape_flat_F. cbn [ravel_F transpose concat].
  now rewrite app_nil_r.
Qed.
End MoreProperties.

(** ** The indicator columns *)

Section IndicatorFacts.
Context {A : Type} {SA : Scalar A}.

Lemma nth_error_one_hot (j k c : nat) :
  c < k ->
  nth_error (one_hot j k) c = Some (if c =? j then one else zero).
Proof.
  intros Hc. unfold one_hot. rewrite nth_error_map.
  rewrite nth_error_nth' with (d := 0) by now rewrite length_seq.
  now rewrite seq_nth.
Qed.

Lemma In_indicator_rows (n k : nat) (r : list A) :
  In r (indicator_rows n k) -> exists j, j < k /\ r = one_hot j k.
Proof.
  unfold indicator_rows. intros Hr. apply in_concat in Hr.
  destruct Hr as [c [Hc Hr]]. apply in_map_iff in Hc.
  destruct Hc as [j [<- Hj]]. apply in_seq in Hj.
  apply repeat_spec in Hr. exists j. split; [lia|exact Hr].
Qed.

Lemma nonzero_one_hot (j k : nat) :
  is_zero (zero : A) = true ->
  is_zero (one : A) = false ->
  j < k ->
  length (filter (fun x : A => negb (is_zero x)) (one_hot j k)) = 1.
Proof.
  intros Hz Ho. revert j. induction k as [|k IH]; intros j Hj; [lia|].
  destruct j as [|j].
  - rewrite one_hot_0. cbn [filter]. rewrite Ho. cbn [negb length]. f_equal.
    clear IH Hj. induction k as [|k IHk]; [reflexivity|].
    cbn [repeat filter]. rewrite Hz. cbn [negb]. exact IHk.
  - rewrite one_hot_S. cbn [filter]. rewrite Hz. cbn [negb].
    apply IH. lia.
Qed.

End IndicatorFacts.

(** ** What the sparse branch stores *)

Section SparseStorage.
Context {A : Type} {SA : Scalar A}.

Lemma row_entries_range (i j0 : nat) (r : list A) (e : nat * nat * A) :
  In e (row_entries i j0 r) ->
  fst (fst e) = i /\ j0 <= snd (fst e) < j0 + length r.
Proof.
  revert j0. induction r as [|x r IH]; intros j0 He; [contradiction|].
  cbn [row_entries] in He. apply in_app_or in He. destruct He as [He|He].
  - destruct (is_zero x); [contradiction|].
    destruct He as [<-|[]]. cbn. split; [reflexivity|lia].
  - apply IH in He. cbn [length]. split; [tauto|lia].
Qed.

Lemma nonzero_entries_range (c i0 : nat) (rows : list (list A)) (e : nat * nat * A) :
  Forall (fun r => length r = c) rows ->
  In e (nonzero_entries i0 rows) ->
  i0 <= fst (fst e) < i0 + length rows /\ snd (fst e) < c.
Proof.
  intros Hwf. revert i0. induction Hwf as [|r rows Hr _ IH]; intros i0 He;
    [contradiction|].
  cbn [nonzero_entries] in He. apply in_app_or in He. destruct He as [He|He].
  - apply row_entries_range in He. cbn [length]. lia.
  - apply IH in He. cbn [length]. lia.
Qed.

Lemma length_vstack_entries_repeat (s : spmatrix A) (k off : nat) :
  length (vstack_entries off (repeat s k)) = k * length (sp_entries s).
Proof.
  revert off. induction k as [|k IH]; intros off; [reflexivity|].
  cbn [repeat vstack_entries]. rewrite length_app, length_map, IH. reflexivity.
Qed.

Lemma length_row_entries (i j0 : nat) (r : list A) :
  length (row_entries i j0 r)
  = length (filter (fun x : A => negb (is_zero x)) r).
Proof.
  revert j0. induction r as [|x r IH]; intros j0; [reflexivity|].
  cbn [row_entries filter]. rewrite length_app, IH.
  now destruct (is_zero x).
Qed.

Lemma length_nonzero_entries (i0 : nat) (rows : list (list A)) :
  length (nonzero_entries i0 rows)
  = list_sum (map (fun r => length (filter (fun x : A => negb (is_zero x)) r))
                  rows).
Proof.
  revert i0. induction rows as [|r rows IH]; intros i0; [reflexivity|].
  cbn [nonzero_entries map]. rewrite length_app, length_row_entries, IH.
  reflexivity.
Qed.

End SparseStorage.

Section SparseStorageCast.
Context {A F : Type} {SF : Scalar F} {PA : Promote A F}.

(** X6: the forward transform keeps matrices well formed.  From a dense X
    with rows of equal length it builds rows of equal length, and from a
    sparse X whose stored triples lie inside its shape it builds a sparse
    matrix whose stored triples lie inside its shape. *)
Theorem forward_keeps_matrices_well_formed
        (X : matrix A) (X' : matrix F) (n f k : nat) :
  wf_matrix X = true ->
  mshape X = Some (n, f) ->
  multi_output_transformer_x X k = Ok X' ->
  wf_matrix X' = true.
Proof.
  intros Hwf HX. destruct k as [|k].
  { now rewrite transformer_x_zero. }
  destruct X as [[v|nc rows]|s]; try discriminate; injection HX as <- <-.
  - rewrite transformer_x_dense by (lia || reflexivity). intros [= <-].
    cbn [wf_matrix wf_ndarray rows_of ncols_of].
    apply forallb_length, Forall_length_stacked_rows.
    apply Forall_map. apply forallb_length in Hwf.
    eapply Forall_impl; [|exact Hwf]. cbn. intros r Hr.
    now rewrite length_map.
  - rewrite transformer_x_sparse_ok by lia. intros [= <-].
    cbn [wf_matrix]. unfold wf_spmatrix. cbn [sp_nrows sp_ncols sp_entries].
    apply forallb_forall. intros e He. apply in_app_or in He.
    apply andb_true_intro. destruct He as [He|He].
    + apply In_promote_entry in He. destruct He as [e0 [He0 ->]].
      destruct (vstack_entries_repeat_In s (S k) 0 e0 Hwf He0) as [Hr Hc].
      split; apply Nat.ltb_lt; lia.
    + apply in_map_iff in He. destruct He as [e' [<- He']].
      apply (@nonzero_entries_range F SF (S k) 0 _ e'
               (Forall_length_indicator_rows (sp_nrows s) (S k))) in He'.
      rewrite length_indicator_rows in He'.
      unfold shift_col. cbn [fst snd]. split; apply Nat.ltb_lt; lia.
Qed.

(** X7: the sparse branch does not fill in zeros.  When the zero test
    accepts 0 and refuses 1, the result for k outputs stores k copies of the
    triples of X and one more triple, the indicator, for each of its
    k * n rows. *)
Theorem sparse_branch_storage (s : spmatrix A) (s' : spmatrix F) (k : nat) :
  is_zero (zero : F) = true ->
  is_zero (one : F) = false ->
  multi_output_transformer_x (Sparse s) k = Ok (Sparse s') ->
  length (sp_entries s') = k * length (sp_entries s) + k * sp_nrows s.
Proof.
  intros Hz Ho. destruct k as [|k].
  { now rewrite transformer_x_zero. }
  rewrite transformer_x_sparse_ok by lia. intros [= <-].
  cbn [sp_entries]. rewrite length_app, !length_map.
  pose proof (length_vstack_entries_repeat s (S k) 0) as E.
  cbn [repeat vstack_entries Nat.add] in E. rewrite E. clear E.
  rewrite length_nonzero_entries.
  rewrite list_sum_all_ones, length_indicator_rows; [reflexivity|].
  intros r Hr. apply In_indicator_rows in Hr. destruct Hr as [j [Hj ->]].
  now apply nonzero_one_hot.
Qed.
End SparseStorageCast.

(** ** Rows and targets side by side *)

Section Alignment.
Context {A B F : Type} {SB : Scalar B} {SF : Scalar F} {LF : ScalarLaws SF}
        {PA : Promote A F}.

Lemma stacked_row_at (X : matrix A) (X' : matrix F) (n f k j i : nat) :
  wf_matrix X = true ->
  mshape X = Some (n, f) ->
  multi_output_transformer_x X k = Ok X' ->
  j < k -> i < n ->
  exists r,
    get_row (densify (astype_float64 X)) i = Some r
    /\ length r = f
    /\ get_row (densify X') (j * n + i) = Some (r ++ one_hot j k).
Proof.
  intros Hwf HX HX' Hj Hi.
  assert (Hwf' : wf_matrix (astype_float64 X : matrix F) = true)
    by now rewrite wf_astype_float64.
  assert (HXF : mshape (astype_float64 X : matrix F) = Some (n, f))
    by now rewrite mshape_astype_float64.
  destruct (densify_shape (astype_float64 X) Hwf' HXF) as [HD [Hlen Hall]].
  assert (Hk : 1 <= k) by lia.
  pose proof (densify_transformer_x X Hwf HX Hk HX') as HD'.
  destruct (nth_error (rows_of (densify (astype_float64 X))) i) as [r|] eqn:Hr;
    [|apply nth_error_None in Hr; lia].
  exists r. split; [|split].
  - rewrite HD. exact Hr.
  - rewrite Forall_forall in Hall. eapply Hall, nth_error_In, Hr.
  - rewrite HD'. cbn [get_row]. rewrite <- Hlen.
    now apply nth_error_stacked_rows.
Qed.


(** X5: the prediction cell.  For X_test of shape (n, f), a training
    target of k >= 1 columns and a model that returns one prediction for
    each stacked row, the cell returns a matrix of shape (n, k) whose entry
    (i, j) is the prediction made on the stacked row that holds row i of
    X_test, converted to float64, followed by e_j. *)
Theorem prediction_cell_aligned
        (predict : matrix F -> ndarray B)
        (X_test : matrix A) (n f k : nat) (rows_train : list (list B)) :
  wf_matrix X_test = true ->
  mshape X_test = Some (n, f) ->
  1 <= k ->
  (forall X', multi_output_transformer_x X_test k = Ok X' ->
              exists p, predict X' = Arr1 p /\ length p = k * n) ->
  exists X' p Y_pred,
    multi_output_transformer_x X_test k = Ok X'
    /\ predict X' = Arr1 p
    /\ predict_multi_output predict X_test (Arr2 k rows_train) = Ok Y_pred
    /\ shape Y_pred = [n; k]
    /\ forall i j, i < n -> j < k ->
         exists r x,
           get_row (densify (astype_float64 X_test)) i = Some r
           /\ get_row (densify X') (j * n + i) = Some (r ++ one_hot j k)
           /\ get1 (Arr1 p) (j * n + i) = Some x
           /\ get2 Y_pred i j = Some x.
Proof.
  intros Hwf HX Hk Hpred.
  destruct (transformer_x_matrix X_test HX Hk) as [X' [HX' _]].
  destruct (Hpred X' HX') as [p [Hp Hlen]].
  rewrite Nat.mul_comm in Hlen.
  exists X', p, (Arr2 k (transpose zero n (chunks n k p))).
  split; [exact HX'|]. split; [exact Hp|]. split; [|split].
  - unfold predict_multi_output. cbn [shape_at shape nth_error bind].
    rewrite HX'. cbn [bind]. rewrite Hp.
    unfold multi_output_inverse_transform_y.
    now apply reshape_cols_F_exact.
  - cbn [shape]. now rewrite length_transpose.
  - intros i j Hi Hj.
    destruct (stacked_row_at X_test Hwf HX HX' Hj Hi) as [r [Hr [_ Hrow]]].
    destruct (unravel_F_index p Hlen Hi Hj) as [q [Hq Hx]].
    assert (Hin : j * n + i < length p) by nia.
    destruct (nth_error p (j * n + i)) as [x|] eqn:Hy;
      [|apply nth_error_None in Hy; lia].
    exists r, x. cbn [get1 get2]. rewrite Hq.
    repeat split; assumption.
Qed.

(** X8: the indicator columns tell the outputs apart.  When 0 and 1 differ
    in float64, two rows of the stacked matrix, at positions j * n + i and
    j' * n + i', are equal only if they belong to the same output, j = j',
    and rows i and i' of X converted to float64 are equal. *)
Theorem indicator_identifies_output
        (X : matrix A) (X' : matrix F) (n f k i i' j j' : nat) :
  (zero : F) <> one ->
  wf_matrix X = true ->
  mshape X = Some (n, f) ->
  multi_output_transformer_x X k = Ok X' ->
  i < n -> i' < n -> j < k -> j' < k ->
  get_row (densify X') (j * n + i) = get_row (densify X') (j' * n + i') ->
  j = j'
  /\ get_row (densify (astype_float64 X)) i
     = get_row (densify (astype_float64 X)) i'.
Proof.
  intros Hne Hwf HX HX' Hi Hi' Hj Hj' Heq.
  destruct (stacked_row_at X Hwf HX HX' Hj Hi) as [r [Hr [Hlr Hrow]]].
  destruct (stacked_row_at X Hwf HX HX' Hj' Hi') as [r' [Hr' [Hlr' Hrow']]].
  rewrite Hrow, Hrow' in Heq. injection Heq as Heq.
  destruct (app_inj_length r r' _ _ (eq_trans Hlr (eq_sym Hlr')) Heq)
    as [Hrr Hoh].
  split; [|now rewrite Hr, Hr', Hrr].
  pose proof (@nth_error_one_hot F SF j k j Hj) as E1.
  pose proof (@nth_error_one_hot F SF j' k j Hj) as E2.
  rewrite Hoh, E2, Nat.eqb_refl in E1.
  destruct (Nat.eqb_spec j j') as [|_]; [assumption|].
  injection E1 as E1. contradiction.
Qed.
End Alignment.

(** ** The prediction cell on the training data *)

Section PredictionFacts.
Context {A B F : Type} {SB : Scalar B} {SF : Scalar F} {PA : Promote A F}.

(** X10: the two cells fit together.  When the model returns, on the
    stacked training matrix, the flat training target, the prediction cell
    run on the training features returns the training target matrix. *)
Theorem prediction_cell_recovers_targets
        (predict : matrix F -> ndarray B)
        (X : matrix A) (n f k : nat) (rowsY : list (list B)) :
  mshape X = Some (n, f) ->
  1 <= k ->
  wf_ndarray (Arr2 k rowsY) = true ->
  (forall X' y',
     multi_output_transform_x_y X (Arr2 k rowsY) = Ok (X', y') ->
     predict X' = y') ->
  predict_multi_output predict X (Arr2 k rowsY) = Ok (Arr2 k rowsY).
Proof.
  intros HX Hk HY Hfit.
  destruct (transformer_x_matrix X HX Hk) as [X' [HX' _]].
  unfold predict_multi_output. cbn [shape_at shape nth_error bind].
  rewrite HX'. cbn [bind].
  rewrite (Hfit X' (multi_output_transform_y (Arr2 k rowsY)))
    by now rewrite transform_x_y_matrix, HX'.
  apply reshape_round_trip; [assumption|]. now apply forallb_length.
Qed.
End PredictionFacts.

(** ** The further properties at the concrete inputs *)

Lemma prediction_cell_recovers_targets_witness :
  (mshape X_ex = Some (2, 1) /\ 1 <= 2 /\ wf_ndarray Y_ex = true)
  /\ predict_multi_output (fun _ => Arr1 y_flat4) X_ex Y_ex = Ok Y_ex.
Proof.
  split; [repeat split; evaluated|].
  apply (@prediction_cell_recovers_targets Z Z Z _ _ _ (fun _ => Arr1 y_flat4)
           X_ex 2 1 2 rows_Y_ex); try evaluated.
  intros X' y' Hxy. vm_compute in Hxy. now injection Hxy as _ <-.
Defined.

Lemma forward_needs_an_output_column_witness :
  mshape X_ex = Some (2, 1)
  /\ (multi_output_transform_x_y X_ex (Arr2 0 [[]; []] : ndarray Z)
      = Raise ValueError)
  /\ exists X' y',
      multi_output_transform_x_y X_ex (Arr2 2 rows_Y_ex) = Ok (X', y')
      /\ issparse X' = issparse X_ex.
Proof.
  split; [reflexivity|]. split.
  - apply (proj1 (@forward_needs_an_output_column Z Z Z _ _ _ X_ex 2 1 0
                    [[]; []] eq_refl)). reflexivity.
  - apply (proj2 (@forward_needs_an_output_column Z Z Z _ _ _ X_ex 2 1 2
                    rows_Y_ex eq_refl)). lia.
Defined.

Lemma vector_of_features_rejected_witness :
  (1 <= 2 /\ length y_flat4 <> 1)
  /\ multi_output_transformer_x (Dense (Arr1 y_flat4)) 2
     = (Raise ValueError : result (matrix Z)).
Proof.
  split; [split; [lia | vm_compute; lia]|].
  apply (@vector_of_features_rejected Z Z _ _ y_flat4 2);
    [lia | vm_compute; lia].
Defined.

Lemma flatten_undoes_unflatten_witness :
  multi_output_inverse_transform_y (Arr1 y_flat4) 2 = Ok Y_ex
  /\ wf_ndarray Y_ex = true
  /\ shape Y_ex = [length y_flat4 / 2; 2]
  /\ multi_output_transform_y Y_ex = Arr1 y_flat4.
Proof.
  split; [reflexivity|].
  apply (@flatten_undoes_unflatten Z _ y_flat4 2 Y_ex). reflexivity.
Defined.

Lemma indicator_identifies_output_witness :
  ((zero : Z) <> one /\ wf_matrix X_twin = true /\ mshape X_twin = Some (2, 1)
   /\ multi_output_transformer_x X_twin 2 = Ok X_twin_stacked
   /\ 0 < 2 /\ 1 < 2 /\ 1 < 2 /\ 1 < 2
   /\ get_row (densify X_twin_stacked) (1 * 2 + 0)
      = get_row (densify X_twin_stacked) (1 * 2 + 1))
  /\ 1 = 1
  /\ get_row (densify (astype_float64 X_twin : matrix Z)) 0
     = get_row (densify (astype_float64 X_twin : matrix Z)) 1.
Proof.
  split; [repeat split; evaluated|].
  apply (@indicator_identifies_output Z Z _ _ _ X_twin X_twin_stacked
           2 1 2 0 1 1 1); evaluated.
Defined.

Lemma forward_keeps_matrices_well_formed_witness :
  (wf_matrix (Sparse S_ex) = true /\ mshape (Sparse S_ex) = Some (2, 1))
  /\ exists X' : matrix Z,
      multi_output_transformer_x (Sparse S_ex) 2 = Ok X'
      /\ wf_matrix X' = true.
Proof.
  split; [split; reflexivity|].
  eexists. split; [reflexivity|].
  apply (@forward_keeps_matrices_well_formed Z Z _ _ (Sparse S_ex) _ 2 1 2);
    reflexivity.
Defined.

Lemma sparse_branch_storage_witness :
  (is_zero (zero : Z) = true /\ is_zero (one : Z) = false)
  /\ exists s' : spmatrix Z,
      multi_output_transformer_x (Sparse S_ex) 2 = Ok (Sparse s')
      /\ length (sp_entries s') = 2 * length (sp_entries S_ex) + 2 * sp_nrows S_ex.
Proof.
  split; [split; reflexivity|].
  eexists. split; [reflexivity|].
  apply (@sparse_branch_storage Z Z _ _ S_ex _ 2); reflexivity.
Defined.


Lemma prediction_cell_aligned_witness :
  (wf_matrix X_ex = true /\ mshape X_ex = Some (2, 1) /\ 1 <= 2)
  /\ exists X' p Y_pred,
      multi_output_transformer_x X_ex 2 = Ok X'
      /\ predict_ex X' = Arr1 p
      /\ predict_multi_output predict_ex X_ex Y_ex = Ok Y_pred
      /\ shape Y_pred = [2; 2]
      /\ forall i j, i < 2 -> j < 2 ->
           exists r x,
             get_row (densify (astype_float64 X_ex)) i = Some r
             /\ get_row (densify X') (j * 2 + i) = Some (r ++ one_hot j 2)
             /\ get1 (Arr1 p) (j * 2 + i) = Some x
             /\ get2 Y_pred i j = Some x.
Proof.
  split; [repeat split; evaluated|].
  apply (@prediction_cell_aligned Z Z Z _ _ _ _ predict_ex X_ex 2 1 2
           rows_Y_ex); try evaluated.
  intros X' HX'. vm_compute in HX'. injection HX' as <-.
  eexists. split; reflexivity.
Defined.
